(** * go-graph: the matrix-backed mixed graph and the arcs filter

    A shallow embedding of [src/graph/MixedMatrix.go] (type [MixedMatrix])
    and of the arcs filter ([DirectedGraphArcsFilter]), followed by the
    properties of the packed triangular indexing, of the arc encoding, of the
    error paths and of the counters.

    Conventions of the embedding:
    - Go's [int] is a 64-bit two's complement integer; it is a [Z] kept in
      range by [wrap] after every arithmetic operation;
    - a slice is a [list], indexed by an [int]; an index out of range panics;
    - [map[VertexId]int] is a [gmap];
    - a method with a pointer receiver is a function from the store to a
      result and the store it leaves behind; a panic is a result, and the
      store it leaves behind is the store as mutated up to the panic. *)

From Stdlib Require Import ZArith Lia String List.
From stdpp Require Import base option list gmap fin_maps.
Import ListNotations.

Local Open Scope Z_scope.

(* ------------------------------------------------------------------------- *)
(** ** Machine integers *)

Module GoInt.

Definition min_int : Z := - 2 ^ 63.
Definition max_int : Z := 2 ^ 63 - 1.

(** Two's complement reduction to 64 bits. *)
Definition wrap (x : Z) : Z := (x + 2 ^ 63) mod 2 ^ 64 - 2 ^ 63.

Definition add (x y : Z) : Z := wrap (x + y).
Definition sub (x y : Z) : Z := wrap (x - y).
Definition mul (x y : Z) : Z := wrap (x * y).
(** Go's [/] truncates towards zero. *)
Definition div (x y : Z) : Z := wrap (Z.quot x y).

Definition in_range (x : Z) : Prop := min_int <= x <= max_int.

End GoInt.

(* ------------------------------------------------------------------------- *)
(** ** Data model *)

(** Modelled from the spec: the declaration of [VertexId] is not in
    MixedMatrix.go (the arcs filter calls the same type [NodeId]). A vertex
    id is an externally assigned value; the store uses ids as map keys and
    compares them with [==], [<], [>] and [>=], so they are of an integer
    type. They are natural numbers here: ids are only compared and looked
    up, never computed with, so their width plays no part. *)
Definition VertexId : Type := N.

(** Modelled from the spec: the declaration of [MixedConnectionType] and of
    its constants is not in MixedMatrix.go. A slot holds one of four states:
    none, undirected edge, directed-forward, directed-reversed. [CT_NONE] is
    the zero value of the type, the one [make] fills a slice with. *)
Inductive MixedConnectionType : Type :=
| CT_NONE
| CT_UNDIRECTED
| CT_DIRECTED
| CT_DIRECTED_REVERSED.

#[global] Instance MixedConnectionType_eq_dec : EqDecision MixedConnectionType.
Proof. solve_decision. Defined.

Record Connection : Type := mkConnection { Tail : VertexId; Head : VertexId }.

Record MixedMatrix : Type := mkMixedMatrix {
  nodes : list MixedConnectionType;
  size : Z;
  VertexIds : gmap N Z;
  edgesCnt : Z;
  arcsCnt : Z
}.

Definition set_nodes (g : MixedMatrix) (ns : list MixedConnectionType) : MixedMatrix :=
  mkMixedMatrix ns (size g) (VertexIds g) (edgesCnt g) (arcsCnt g).

Definition set_VertexIds (g : MixedMatrix) (m : gmap N Z) : MixedMatrix :=
  mkMixedMatrix (nodes g) (size g) m (edgesCnt g) (arcsCnt g).

Definition set_edgesCnt (g : MixedMatrix) (n : Z) : MixedMatrix :=
  mkMixedMatrix (nodes g) (size g) (VertexIds g) n (arcsCnt g).

Definition set_arcsCnt (g : MixedMatrix) (n : Z) : MixedMatrix :=
  mkMixedMatrix (nodes g) (size g) (VertexIds g) (edgesCnt g) n.

(** [len(gr.VertexIds)] *)
Definition len_VertexIds (g : MixedMatrix) : Z := Z.of_nat (stdpp.base.size (VertexIds g)).

(* ------------------------------------------------------------------------- *)
(** ** Panics *)

(** The values the code panics with: an [erx] error made by [erx.NewError],
    an error wrapped by [erx.NewSequent] in a deferred handler, a plain
    string, or a run-time error of Go itself. *)
Inductive panic_value : Type :=
| NewError (msg : string)
| NewSequent (msg : string) (cause : panic_value)
| PanicString (msg : string)
| IndexOutOfRange (index : Z) (length : nat)
| MakeLenOutOfRange.

Inductive result (A : Type) : Type :=
| Ok (a : A)
| Panic (e : panic_value).
Arguments Ok {A} a.
Arguments Panic {A} e.

(** A method on [*MixedMatrix]: the result, and the store after the call. *)
Definition M (A : Type) : Type := MixedMatrix -> result A * MixedMatrix.

Definition ret {A} (a : A) : M A := fun g => (Ok a, g).
Definition panic {A} (e : panic_value) : M A := fun g => (Panic e, g).
Definition bind {A B} (m : M A) (k : A -> M B) : M B :=
  fun g => match m g with
           | (Ok a, g') => k a g'
           | (Panic e, g') => (Panic e, g')
           end.
Definition get : M MixedMatrix := fun g => (Ok g, g).
Definition put (g' : MixedMatrix) : M unit := fun _ => (Ok tt, g').

Notation "x <- m ;; k" := (bind m (fun x => k))
  (at level 100, m at next level, right associativity).
Notation "m ;;; k" := (bind m (fun _ => k))
  (at level 100, right associativity).

(** [defer func() { if e := recover(); e != nil { panic(erx.NewSequent(msg, e)) } }()] *)
Definition deferred (msg : string) {A} (m : M A) : M A :=
  fun g => match m g with
           | (Panic e, g') => (Panic (NewSequent msg e), g')
           | r => r
           end.

(* ------------------------------------------------------------------------- *)
(** ** Slices *)

(** [s[i]] as an expression. *)
Definition index {A} (s : list A) (i : Z) : result A :=
  if i <? 0 then Panic (IndexOutOfRange i (length s))
  else match s !! Z.to_nat i with
       | Some a => Ok a
       | None => Panic (IndexOutOfRange i (length s))
       end.

(** [s[i] = a] *)
Definition store {A} (s : list A) (i : Z) (a : A) : result (list A) :=
  if i <? 0 then Panic (IndexOutOfRange i (length s))
  else if i <? Z.of_nat (length s) then Ok (<[Z.to_nat i := a]> s)
  else Panic (IndexOutOfRange i (length s)).

(** [gr.nodes[conn]] and [gr.nodes[conn] = t] on the store. *)
Definition read_node (conn : Z) : M MixedConnectionType :=
  fun gr => (index (nodes gr) conn, gr).

Definition write_node (conn : Z) (t : MixedConnectionType) : M unit :=
  fun gr => match store (nodes gr) conn t with
            | Ok ns => (Ok tt, set_nodes gr ns)
            | Panic e => (Panic e, gr)
            end.

(** [id, ok = gr.VertexIds[node]]: the zero value when the key is absent. *)
Definition lookup_id (gr : MixedMatrix) (node : VertexId) : Z * bool :=
  match VertexIds gr !! node with
  | Some id => (id, true)
  | None => (0, false)
  end.

(** [id = len(gr.VertexIds); gr.VertexIds[node] = id] *)
Definition new_id (node : VertexId) : M Z :=
  fun gr => let id := len_VertexIds gr in
            (Ok id, set_VertexIds gr (<[node := id]> (VertexIds gr))).

(* ------------------------------------------------------------------------- *)
(** ** The store: MixedMatrix.go *)

Definition NewMixedMatrix (size : Z) : result MixedMatrix :=
  if size <=? 0 then
    Panic (NewError "Trying to create mixed matrix graph with zero size")
  else
    let n := GoInt.div (GoInt.mul size (GoInt.sub size 1)) 2 in
    if n <? 0 then Panic MakeLenOutOfRange
    else Ok (mkMixedMatrix (replicate (Z.to_nat n) CT_NONE) size ∅ 0 0).

Definition AddNode (node : VertexId) : M unit :=
  deferred "Add node to graph." (
    gr <- get ;;
    if decide (is_Some (VertexIds gr !! node)) then
      panic (NewError "Node already exists.")
    else if len_VertexIds gr =? size gr then
      panic (NewError "Not enough space to add new node")
    else
      put (set_VertexIds gr (<[node := len_VertexIds gr]> (VertexIds gr)))).

Definition Order (gr : MixedMatrix) : Z := len_VertexIds gr.

Definition RemoveNode (node : VertexId) : M unit :=
  panic (PanicString "Function RemoveNode doesn't implement in MixedMatrix graph yet.").

Definition CheckNode (g : MixedMatrix) (node : VertexId) : bool :=
  bool_decide (is_Some (VertexIds g !! node)).

(** The slot index of line 448, in Go's [int] arithmetic. *)
Definition connId (size id1 id2 : Z) : Z :=
  GoInt.sub
    (GoInt.sub (GoInt.add (GoInt.mul id1 (GoInt.sub size 1)) id2) 1)
    (GoInt.div (GoInt.mul id1 (GoInt.add id1 1)) 2).

Definition getConnectionId (node1 node2 : VertexId) (create : bool) : M Z :=
  deferred "Calculating connection id." (
    gr <- get ;;
    let '(id1, node1Exist) := lookup_id gr node1 in
    let '(id2, node2Exist) := lookup_id gr node2 in
    (* checking for errors *)
    (if bool_decide (node1 = node2) then
       panic (NewError "Equal nodes.")
     else if negb create then
       if negb node1Exist then
         panic (NewError "First node doesn't exist in graph")
       else if negb node2Exist then
         panic (NewError "Second node doesn't exist in graph")
       else ret tt
     else if negb node1Exist || negb node2Exist then
       if node1Exist && node2Exist then
         if GoInt.sub (size gr) (len_VertexIds gr) <? 2 then
           panic (NewError "Not enough space to create two new nodes.")
         else ret tt
       else
         if GoInt.sub (size gr) (len_VertexIds gr) <? 1 then
           panic (NewError "Not enough space to create new node.")
         else ret tt
     else ret tt) ;;;
    id1 <- (if negb node1Exist then new_id node1 else ret id1) ;;
    id2 <- (if negb node2Exist then new_id node2 else ret id2) ;;
    (* switching id1, id2 in order to id1 < id2 *)
    let '(id1, id2) := if id1 >? id2 then (id2, id1) else (id1, id2) in
    (* id from upper triangle matrix, stored in vector *)
    ret (connId (size gr) id1 id2)).

(** [gr.edgesCnt++], [gr.edgesCnt--], [gr.arcsCnt++], [gr.arcsCnt--] *)
Definition edgesCnt_incr : M unit :=
  fun gr => (Ok tt, set_edgesCnt gr (GoInt.add (edgesCnt gr) 1)).
Definition edgesCnt_decr : M unit :=
  fun gr => (Ok tt, set_edgesCnt gr (GoInt.sub (edgesCnt gr) 1)).
Definition arcsCnt_incr : M unit :=
  fun gr => (Ok tt, set_arcsCnt gr (GoInt.add (arcsCnt gr) 1)).
Definition arcsCnt_decr : M unit :=
  fun gr => (Ok tt, set_arcsCnt gr (GoInt.sub (arcsCnt gr) 1)).

Definition AddEdge (node1 node2 : VertexId) : M unit :=
  deferred "Add edge to mixed graph." (
    conn <- getConnectionId node1 node2 true ;;
    t <- read_node conn ;;
    if bool_decide (t <> CT_NONE) then
      panic (NewError "Duplicate edge.")
    else
      write_node conn CT_UNDIRECTED ;;;
      edgesCnt_incr).

Definition RemoveEdge (node1 node2 : VertexId) : M unit :=
  deferred "Remove edge from mixed graph." (
    conn <- getConnectionId node1 node2 true ;;
    t <- read_node conn ;;
    if bool_decide (t <> CT_UNDIRECTED) then
      panic (NewError "Edge doesn't exists.")
    else
      write_node conn CT_NONE ;;;
      edgesCnt_decr).

Definition EdgesCnt (gr : MixedMatrix) : Z := edgesCnt gr.

Definition CheckEdge (node1 node2 : VertexId) : M bool :=
  deferred "Check edge in mixed graph." (
    if bool_decide (node1 = node2) then
      ret false
    else
      conn <- getConnectionId node1 node2 false ;;
      t <- read_node conn ;;
      ret (bool_decide (t = CT_UNDIRECTED))).

(** [if tail<head { CT_DIRECTED } else { CT_DIRECTED_REVERSED }], the test
    of [AddArc], [RemoveArc] and [CheckArc]; it compares the vertex ids. *)
Definition arcType (tail head : VertexId) : MixedConnectionType :=
  if (tail <? head)%N then CT_DIRECTED else CT_DIRECTED_REVERSED.

Definition AddArc (tail head : VertexId) : M unit :=
  deferred "Add arc to mixed graph." (
    conn <- getConnectionId tail head true ;;
    t <- read_node conn ;;
    if bool_decide (t <> CT_NONE) then
      panic (NewError "Duplicate edge.")
    else
      (if (tail <? head)%N then write_node conn CT_DIRECTED
       else write_node conn CT_DIRECTED_REVERSED) ;;;
      arcsCnt_incr).

Definition RemoveArc (tail head : VertexId) : M unit :=
  deferred "Remove arc from mixed graph." (
    conn <- getConnectionId tail head true ;;
    let expectedType := arcType tail head in
    t <- read_node conn ;;
    if bool_decide (t <> expectedType) then
      panic (NewError "Arc doesn't exists.")
    else
      write_node conn CT_NONE ;;;
      arcsCnt_decr).

Definition ArcsCnt (gr : MixedMatrix) : Z := arcsCnt gr.

Definition CheckArc (tail head : VertexId) : M bool :=
  deferred "Check arc in mixed graph." (
    let checkingType := arcType tail head in
    conn <- getConnectionId tail head false ;;
    t <- read_node conn ;;
    ret (bool_decide (t = checkingType))).

Definition CheckEdgeType (tail head : VertexId) : M MixedConnectionType :=
  deferred "Check edge type in mixed graph." (
    conn <- getConnectionId tail head false ;;
    connType <- read_node conn ;;
    (* connType==CT_DIRECTED && tail>head *)
    if bool_decide (connType = CT_DIRECTED) && (head <? tail)%N then
      ret CT_DIRECTED_REVERSED
    else
      ret connType).

Definition ConnectionsCnt (g : MixedMatrix) : Z :=
  GoInt.add (arcsCnt g) (edgesCnt g).

(* ------------------------------------------------------------------------- *)
(** ** The arcs filter *)

(** The part of the wrapped [DirectedGraphReader] the filter calls: the
    sequence its [ConnectionsIter] sends, and its [CheckArc]. *)
Record DirectedGraphReader : Type := mkReader {
  reader_ConnectionsIter : list Connection;
  reader_CheckArc : VertexId -> VertexId -> bool
}.

Record DirectedGraphArcsFilter : Type := mkFilter {
  filter_reader : DirectedGraphReader;
  arcs : list Connection
}.

Definition NewArcsFilter (g : DirectedGraphReader) (arcs : list Connection)
  : DirectedGraphArcsFilter := mkFilter g arcs.

Definition NewArcFilter (g : DirectedGraphReader) (tail head : VertexId)
  : DirectedGraphArcsFilter := mkFilter g [mkConnection tail head].

Module ArcsFilter.

(** The loop of [CheckArc] over the filtering arcs: [res = false; break]
    at the first arc equal to [(node1, node2)]. *)
Fixpoint CheckArc_loop (arcs : list Connection) (node1 node2 : VertexId)
    (res : bool) : bool :=
  match arcs with
  | [] => res
  | filteringConnection :: rest =>
      if (Tail filteringConnection =? node1)%N
         && (Head filteringConnection =? node2)%N
      then false
      else CheckArc_loop rest node1 node2 res
  end.

Definition CheckArc (filter : DirectedGraphArcsFilter)
    (node1 node2 : VertexId) : bool :=
  let res := reader_CheckArc (filter_reader filter) node1 node2 in
  if res then CheckArc_loop (arcs filter) node1 node2 res else res.

(** The inner loop of [ConnectionsIter] for one connection [conn] of the
    wrapped reader; [ch] is the sequence sent on the channel so far. The
    body is one [if] whose branch is [continue]: both ways the loop goes on
    to the next filtering arc, and nothing is sent. *)
Fixpoint ConnectionsIter_inner (arcs : list Connection) (conn : Connection)
    (ch : list Connection) : list Connection :=
  match arcs with
  | [] => ch
  | filteringConnection :: rest =>
      if (Head filteringConnection =? Head conn)%N
         && (Tail filteringConnection =? Tail conn)%N
      then (* continue *) ConnectionsIter_inner rest conn ch
      else ConnectionsIter_inner rest conn ch
  end.

(** The outer loop, over what the wrapped reader sends. *)
Fixpoint ConnectionsIter_outer (arcs : list Connection)
    (conns : list Connection) (ch : list Connection) : list Connection :=
  match conns with
  | [] => ch
  | conn :: rest =>
      ConnectionsIter_outer arcs rest (ConnectionsIter_inner arcs conn ch)
  end.

(** What a consumer receives from the channel before it is closed. *)
Definition ConnectionsIter (filter : DirectedGraphArcsFilter) : list Connection :=
  ConnectionsIter_outer (arcs filter)
    (reader_ConnectionsIter (filter_reader filter)) [].

End ArcsFilter.

(* ------------------------------------------------------------------------- *)
(** ** The iterators of the store *)

(** [for k, _ := range gr.VertexIds { body }], with the state [s] the body
    works on. Go does not say in which order a map is ranged over, and the
    order may differ from one loop to the next: [keys] is the order this
    loop takes. *)
Fixpoint for_range {S : Type} (keys : list VertexId)
    (body : VertexId -> S -> M S) (s : S) : M S :=
  match keys with
  | [] => ret s
  | k :: rest => s' <- body k s ;; for_range rest body s'
  end.

(** Modelled from the spec: the declaration of [TypedConnection] is not in
    MixedMatrix.go; it holds a connection and its kind. *)
Record TypedConnection : Type := mkTypedConnection {
  tc_Connection : Connection;
  tc_Type : MixedConnectionType
}.

(** The iterators send on a channel from a goroutine of their own and
    close it; [ch] is what was sent so far, and the result is what the
    consumer receives. A panic in the goroutine is the result [Panic]. The
    outer loop takes the order [froms], and the inner loop entered for
    [from] takes the order [tos from]. *)
Definition VertexesIter (keys : list VertexId) : M (list VertexId) :=
  for_range keys (fun node ch => ret (ch ++ [node])) [].

Definition ConnectionsIter (froms : list VertexId)
    (tos : VertexId -> list VertexId) : M (list Connection) :=
  for_range froms (fun from ch =>
    for_range (tos from) (fun to ch =>
      if (to <=? from)%N then (* from>=to: continue *) ret ch
      else
        conn <- getConnectionId from to false ;;
        t <- read_node conn ;;
        if bool_decide (t <> CT_NONE) then ret (ch ++ [mkConnection from to])
        else ret ch) ch) [].

Definition EdgesIter (froms : list VertexId)
    (tos : VertexId -> list VertexId) : M (list Connection) :=
  for_range froms (fun from ch =>
    for_range (tos from) (fun to ch =>
      if (to <=? from)%N then ret ch
      else
        conn <- getConnectionId from to false ;;
        t <- read_node conn ;;
        if bool_decide (t = CT_UNDIRECTED) then ret (ch ++ [mkConnection from to])
        else ret ch) ch) [].

Definition ArcsIter (froms : list VertexId)
    (tos : VertexId -> list VertexId) : M (list Connection) :=
  for_range froms (fun from ch =>
    for_range (tos from) (fun to ch =>
      if (to <=? from)%N then ret ch
      else
        conn <- getConnectionId from to false ;;
        t <- read_node conn ;;
        ch <- (if bool_decide (t = CT_DIRECTED)
               then ret (ch ++ [mkConnection from to]) else ret ch) ;;
        t <- read_node conn ;;
        if bool_decide (t = CT_DIRECTED_REVERSED)
        then ret (ch ++ [mkConnection to from]) else ret ch) ch) [].

(** The [default] branch of the switch, the "wrong connection type" panic,
    is for values outside the four constants; the type has none. *)
Definition TypedConnectionsIter (froms : list VertexId)
    (tos : VertexId -> list VertexId) : M (list TypedConnection) :=
  for_range froms (fun from ch =>
    for_range (tos from) (fun to ch =>
      if (to <=? from)%N then ret ch
      else
        conn <- getConnectionId from to false ;;
        t <- read_node conn ;;
        match t with
        | CT_NONE => ret ch
        | CT_UNDIRECTED =>
            ret (ch ++ [mkTypedConnection (mkConnection from to) CT_UNDIRECTED])
        | CT_DIRECTED =>
            ret (ch ++ [mkTypedConnection (mkConnection from to) CT_DIRECTED])
        | CT_DIRECTED_REVERSED =>
            ret (ch ++ [mkTypedConnection (mkConnection to from) CT_DIRECTED])
        end) ch) [].

(* ------------------------------------------------------------------------- *)
(** ** The arcs filter: successors and predecessors *)

(** The two methods of the wrapped [DirectedGraphReader] that return
    [Nodes], a slice of ids. *)
Record NodesReader : Type := mkNodesReader {
  reader_GetAccessors : VertexId -> list VertexId;
  reader_GetPredecessors : VertexId -> list VertexId
}.

(** The slice [accessors] together with [newAccessorsLen]: [live] are the
    first [newAccessorsLen] entries, [behind] the entries after them. The
    filter works in the slice the reader returned; it makes no copy. *)
Record Nodes : Type := mkNodes {
  live : list VertexId;
  behind : list VertexId
}.

(** The whole slice, as the reader that returned it sees it. *)
Definition backing (s : Nodes) : list VertexId := live s ++ behind s.

(** The search loop [for k=0; k<newAccessorsLen; k++] with its [break] at
    the first entry equal to [x], and the entries left when the ones after
    [k] are copied one place down: [None] when the loop ends with
    [k == newAccessorsLen]. *)
Fixpoint drop_first (x : VertexId) (entries : list VertexId) : option (list VertexId) :=
  match entries with
  | [] => None
  | a :: rest =>
      if (a =? x)%N then Some rest
      else match drop_first x rest with
           | Some rest' => Some (a :: rest')
           | None => None
           end
  end.

(** [if k<newAccessorsLen { copy(accessors[k:newAccessorsLen-1],
    accessors[k+1:newAccessorsLen]); newAccessorsLen-- }]: the copy does not
    write the last live entry, which is now the first one behind. *)
Definition remove_node (x : VertexId) (s : Nodes) : Nodes :=
  match drop_first x (live s), last (live s) with
  | Some live', Some z => mkNodes live' (z :: behind s)
  | _, _ => s
  end.

(** [GetAccessors], up to its [return]: the loop over the filtering arcs. *)
Definition GetAccessors_loop (filter : DirectedGraphArcsFilter) (reader : NodesReader)
    (node : VertexId) : Nodes :=
  fold_left
    (fun s filteringConnection =>
       if (node =? Tail filteringConnection)%N
       then remove_node (Head filteringConnection) s else s)
    (arcs filter) (mkNodes (reader_GetAccessors reader node) []).

(** [return accessors[0:newAccessorsLen]] *)
Definition GetAccessors (filter : DirectedGraphArcsFilter) (reader : NodesReader)
    (node : VertexId) : list VertexId :=
  live (GetAccessors_loop filter reader node).

(** [GetPredecessors] starts from [GetAccessors(node)] of the reader too. *)
Definition GetPredecessors_loop (filter : DirectedGraphArcsFilter) (reader : NodesReader)
    (node : VertexId) : Nodes :=
  fold_left
    (fun s filteringConnection =>
       if (node =? Head filteringConnection)%N
       then remove_node (Tail filteringConnection) s else s)
    (arcs filter) (mkNodes (reader_GetAccessors reader node) []).

Definition GetPredecessors (filter : DirectedGraphArcsFilter) (reader : NodesReader)
    (node : VertexId) : list VertexId :=
  live (GetPredecessors_loop filter reader node).

(* ------------------------------------------------------------------------- *)
(** ** Definitions used by the statements *)

(** The formula of the slot index over the mathematical integers:
    [slot = lo*(capacity-1) + hi - 1 - lo*(lo+1)/2]. [connId] is the same
    line computed in Go's [int]. *)
Definition slot_formula (size lo hi : Z) : Z :=
  lo * (size - 1) + hi - 1 - lo * (lo + 1) / 2.

(** The pairs the formula is meant for. *)
Definition valid_pair (size lo hi : Z) : Prop := 0 <= lo < hi /\ hi < size.

(** What [getConnectionId] returns for internal indices [i1] and [i2]. *)
Definition ordered_connId (size i1 i2 : Z) : Z :=
  let '(id1, id2) := if i1 >? i2 then (i2, i1) else (i1, i2) in
  connId size id1 id2.

(** An error as it leaves [getConnectionId], wrapped by its deferred
    handler. *)
Definition in_getConnectionId (e : panic_value) : panic_value :=
  NewSequent "Calculating connection id." e.

(** The panic of the indexing routine on two equal ids. *)
Definition equal_nodes : panic_value :=
  in_getConnectionId (NewError "Equal nodes.").

(** The stores that differ at most in the vertex map. *)
Definition same_slots (g g' : MixedMatrix) : Prop :=
  nodes g' = nodes g /\ size g' = size g /\
  edgesCnt g' = edgesCnt g /\ arcsCnt g' = arcsCnt g.

(** The store after [gr.nodes[conn] = t] and a new pair of counters. *)
Definition updated (g : MixedMatrix) (conn : Z) (t : MixedConnectionType)
    (edges arcs : Z) : MixedMatrix :=
  mkMixedMatrix (<[Z.to_nat conn := t]> (nodes g)) (size g) (VertexIds g) edges arcs.

(** The calls a client can make on a store. *)
Inductive call : Type :=
| CallAddNode (node : VertexId)
| CallRemoveNode (node : VertexId)
| CallAddEdge (node1 node2 : VertexId)
| CallRemoveEdge (node1 node2 : VertexId)
| CallCheckEdge (node1 node2 : VertexId)
| CallAddArc (tail head : VertexId)
| CallRemoveArc (tail head : VertexId)
| CallCheckArc (tail head : VertexId)
| CallCheckEdgeType (tail head : VertexId).

(** The store a call leaves behind, whether it returns or panics. *)
Definition exec (c : call) (g : MixedMatrix) : MixedMatrix :=
  match c with
  | CallAddNode node => snd (AddNode node g)
  | CallRemoveNode node => snd (RemoveNode node g)
  | CallAddEdge node1 node2 => snd (AddEdge node1 node2 g)
  | CallRemoveEdge node1 node2 => snd (RemoveEdge node1 node2 g)
  | CallCheckEdge node1 node2 => snd (CheckEdge node1 node2 g)
  | CallAddArc tail head => snd (AddArc tail head g)
  | CallRemoveArc tail head => snd (RemoveArc tail head g)
  | CallCheckArc tail head => snd (CheckArc tail head g)
  | CallCheckEdgeType tail head => snd (CheckEdgeType tail head g)
  end.

(** The stores a program can hold: a new one, or one reached by a call. *)
Inductive reachable : MixedMatrix -> Prop :=
| reachable_new size g : NewMixedMatrix size = Ok g -> reachable g
| reachable_call c g : reachable g -> reachable (exec c g).

(** The store built by [NewMixedMatrix size] followed by the calls [cs]. *)
Definition build (size : Z) (cs : list call) : option MixedMatrix :=
  match NewMixedMatrix size with
  | Ok g => Some (fold_left (fun g c => exec c g) cs g)
  | Panic _ => None
  end.

(** A reader of a graph with the arcs (1, 2) and (2, 3). *)
Definition two_arcs_reader : DirectedGraphReader :=
  mkReader [mkConnection 1 2; mkConnection 2 3]%N
    (fun tail head => ((tail =? 1) && (head =? 2) || (tail =? 2) && (head =? 3))%N).

(** The encoding by internal index order: after [AddArc(tail, head)] on
    [g] the slot of the pair holds [CT_DIRECTED] when the internal index of
    [tail] is below the one of [head], and [CT_DIRECTED_REVERSED] otherwise. *)
Definition AddArc_encodes_index_order (g : MixedMatrix) (tail head : VertexId) : Prop :=
  forall g', AddArc tail head g = (Ok tt, g') ->
  exists i j conn,
    VertexIds g' !! tail = Some i /\
    VertexIds g' !! head = Some j /\
    getConnectionId tail head false g' = (Ok conn, g') /\
    index (nodes g') conn = Ok (if i <? j then CT_DIRECTED else CT_DIRECTED_REVERSED).

(** The panic of a query on a pair with an unmapped id. *)
Definition unmapped_error (g : MixedMatrix) (node1 : VertexId) : panic_value :=
  in_getConnectionId
    (match VertexIds g !! node1 with
     | None => NewError "First node doesn't exist in graph"
     | Some _ => NewError "Second node doesn't exist in graph"
     end).

Definition is_edge (t : MixedConnectionType) : bool :=
  bool_decide (t = CT_UNDIRECTED).

Definition is_arc (t : MixedConnectionType) : bool :=
  bool_decide (t = CT_DIRECTED) || bool_decide (t = CT_DIRECTED_REVERSED).

(** A slot that is not in the none state. *)
Definition realized (t : MixedConnectionType) : bool :=
  negb (bool_decide (t = CT_NONE)).

(** The number of slots that satisfy [p]. *)
Fixpoint count_slots (p : MixedConnectionType -> bool)
    (ns : list MixedConnectionType) : Z :=
  match ns with
  | [] => 0
  | t :: rest => (if p t then 1 else 0) + count_slots p rest
  end.

(** Each counter counts its kind of slot, and the slice is no longer than
    what [NewMixedMatrix] can allocate. *)
Record counters_ok (g : MixedMatrix) : Prop := {
  edges_ok : edgesCnt g = count_slots is_edge (nodes g);
  arcs_ok : arcsCnt g = count_slots is_arc (nodes g);
  slots_fit : Z.of_nat (length (nodes g)) <= 2 ^ 62
}.

(* ------------------------------------------------------------------------- *)
(** ** Definitions used by the further properties *)

(** The vertex map after [node] was given the next internal index, if it
    had none: what [AddNode] and [getConnectionId] do to the map. *)
Definition map_add (node : VertexId) (m : gmap N Z) : gmap N Z :=
  match m !! node with
  | Some _ => m
  | None => <[node := Z.of_nat (stdpp.base.size m)]> m
  end.

(** The vertex map numbers the vertices: every internal index is below the
    number of vertices, no two vertices share one, and every number below
    the number of vertices is the index of a vertex. *)
Definition vertex_map_ok (m : gmap N Z) : Prop :=
  (forall v i, m !! v = Some i -> 0 <= i < Z.of_nat (stdpp.base.size m)) /\
  (forall u v i, m !! u = Some i -> m !! v = Some i -> u = v) /\
  (forall i, 0 <= i < Z.of_nat (stdpp.base.size m) -> exists v, m !! v = Some i).

(** The panic of a writer that finds the slot taken. *)
Definition duplicate (op : string) : panic_value :=
  NewSequent op (NewError "Duplicate edge.").

(** A store within its capacity: reached from a new one, with no more
    vertices than [size], and with a [size] whose triangle
    [size*(size-1)] is computed without wrap-around. *)
Definition within_capacity (g : MixedMatrix) : Prop :=
  reachable g /\ Order g <= size g /\ size g * (size g - 1) <= GoInt.max_int.

(** The two ids a writer is called with. *)
Definition call_pair (c : call) : option (VertexId * VertexId) :=
  match c with
  | CallAddEdge node1 node2 | CallRemoveEdge node1 node2
  | CallAddArc node1 node2 | CallRemoveArc node1 node2 => Some (node1, node2)
  | _ => None
  end.

(** The call [c] is no writer on the pair of [a] and [b]. *)
Definition other_pair (c : call) (a b : VertexId) : Prop :=
  call_pair c <> Some (a, b) /\ call_pair c <> Some (b, a).

(** An order in which Go may range over the vertex map of [g]: every
    mapped id once. *)
Definition key_order (g : MixedMatrix) (keys : list VertexId) : Prop :=
  NoDup keys /\ forall v, v ∈ keys <-> is_Some (VertexIds g !! v).

(** What the slot of two distinct mapped ids holds, when it can be read. *)
Definition slot_state (g : MixedMatrix) (a b : VertexId) : option MixedConnectionType :=
  match VertexIds g !! a, VertexIds g !! b with
  | Some i, Some j =>
      if bool_decide (a = b) then None
      else match index (nodes g) (ordered_connId (size g) i j) with
           | Ok t => Some t
           | Panic _ => None
           end
  | _, _ => None
  end.

(** What one pass of the inner loop of each iterator sends. *)
Definition sent_by_ConnectionsIter (g : MixedMatrix) (p : VertexId * VertexId)
  : list Connection :=
  if (p.2 <=? p.1)%N then []
  else match slot_state g p.1 p.2 with
       | Some CT_NONE | None => []
       | Some _ => [mkConnection p.1 p.2]
       end.

Definition sent_by_EdgesIter (g : MixedMatrix) (p : VertexId * VertexId)
  : list Connection :=
  if (p.2 <=? p.1)%N then []
  else match slot_state g p.1 p.2 with
       | Some CT_UNDIRECTED => [mkConnection p.1 p.2]
       | _ => []
       end.

Definition sent_by_ArcsIter (g : MixedMatrix) (p : VertexId * VertexId)
  : list Connection :=
  if (p.2 <=? p.1)%N then []
  else match slot_state g p.1 p.2 with
       | Some CT_DIRECTED => [mkConnection p.1 p.2]
       | Some CT_DIRECTED_REVERSED => [mkConnection p.2 p.1]
       | _ => []
       end.

Definition sent_by_TypedConnectionsIter (g : MixedMatrix) (p : VertexId * VertexId)
  : list TypedConnection :=
  if (p.2 <=? p.1)%N then []
  else match slot_state g p.1 p.2 with
       | Some CT_UNDIRECTED => [mkTypedConnection (mkConnection p.1 p.2) CT_UNDIRECTED]
       | Some CT_DIRECTED => [mkTypedConnection (mkConnection p.1 p.2) CT_DIRECTED]
       | Some CT_DIRECTED_REVERSED => [mkTypedConnection (mkConnection p.2 p.1) CT_DIRECTED]
       | _ => []
       end.

(** What the two nested loops send when the pass for [(from, to)] sends
    [sent (from, to)]. *)
Definition sent_by_loops {X : Type} (sent : VertexId * VertexId -> list X)
    (froms : list VertexId) (tos : VertexId -> list VertexId) : list X :=
  froms ≫= (fun from => tos from ≫= (fun to => sent (from, to))).

(** The pair of ids of a connection, the smaller id first. *)
Definition ordered_ids (c : Connection) : VertexId * VertexId :=
  (N.min (Tail c) (Head c), N.max (Tail c) (Head c)).

(** The panic of the indexing routine when a vertex is missing and no
    place is left. *)
Definition no_space : panic_value :=
  in_getConnectionId (NewError "Not enough space to create new node.").

(* ------------------------------------------------------------------------- *)
(** ** Machine integers: facts *)

Lemma wrap_id x : GoInt.in_range x -> GoInt.wrap x = x.
Proof.
  unfold GoInt.in_range, GoInt.min_int, GoInt.max_int, GoInt.wrap. intros H.
  rewrite Z.mod_small; lia.
Qed.

Lemma wrap_in_range x : GoInt.in_range (GoInt.wrap x).
Proof.
  unfold GoInt.in_range, GoInt.min_int, GoInt.max_int, GoInt.wrap.
  pose proof (Z.mod_pos_bound (x + 2 ^ 63) (2 ^ 64) ltac:(lia)). lia.
Qed.

(** Closes [GoInt.in_range x] from linear facts in the context. *)
Ltac fits :=
  unfold GoInt.in_range, GoInt.min_int, GoInt.max_int in *; lia.

(* ------------------------------------------------------------------------- *)
(** ** The packed triangular index *)

(** The product of two consecutive integers is even. *)
Lemma consecutive_half (n : Z) : 2 * (n * (n + 1) / 2) = n * (n + 1).
Proof.
  destruct (Z.Even_or_Odd n) as [[k ->] | [k ->]].
  - replace (2 * k * (2 * k + 1)) with (k * (2 * k + 1) * 2) by ring.
    rewrite Z.div_mul by lia. ring.
  - replace ((2 * k + 1) * (2 * k + 1 + 1)) with ((2 * k + 1) * (k + 1) * 2) by ring.
    rewrite Z.div_mul by lia. ring.
Qed.

Lemma capacity_half (n : Z) : 2 * (n * (n - 1) / 2) = n * (n - 1).
Proof.
  replace (n * (n - 1)) with ((n - 1) * (n - 1 + 1)) by ring.
  apply consecutive_half.
Qed.

(** The layout of the triangle for a fixed capacity. *)
Section Triangle.

Variable size : Z.

(** Twice the slot index, free of division. *)
Lemma slot_formula_double lo hi :
  2 * slot_formula size lo hi = 2 * lo * (size - 1) + 2 * hi - 2 - lo * (lo + 1).
Proof.
  unfold slot_formula. pose proof (consecutive_half lo). lia.
Qed.

(** A row of the triangle is laid out contiguously. *)
Lemma slot_formula_row lo hi :
  slot_formula size lo hi = slot_formula size lo (lo + 1) + (hi - lo - 1).
Proof. unfold slot_formula. lia. Qed.

(** Row [lo + 1] starts right after row [lo], which has [size - 1 - lo] slots. *)
Lemma slot_formula_next_row lo :
  slot_formula size (lo + 1) (lo + 2) = slot_formula size lo (lo + 1) + (size - 1 - lo).
Proof.
  pose proof (slot_formula_double (lo + 1) (lo + 2)).
  pose proof (slot_formula_double lo (lo + 1)).
  nia.
Qed.



(** Row starts grow with the row. *)
Lemma row_start_mono (n : nat) lo :
  0 <= lo -> lo + Z.of_nat n < size ->
  slot_formula size lo (lo + 1) + Z.of_nat n
    <= slot_formula size (lo + Z.of_nat n) (lo + Z.of_nat n + 1).
Proof.
  induction n as [|n IH]; intros Hlo Hn.
  - replace (lo + Z.of_nat 0) with lo by lia. lia.
  - replace (lo + Z.of_nat (S n)) with (lo + Z.of_nat n + 1) by lia.
    replace (lo + Z.of_nat n + 1 + 1) with (lo + Z.of_nat n + 2) by lia.
    rewrite slot_formula_next_row. lia.
Qed.

Lemma slot_formula_range lo hi :
  valid_pair size lo hi -> 0 <= slot_formula size lo hi < size * (size - 1) / 2.
Proof.
  intros [[Hlo Hlt] Hhi].
  pose proof (slot_formula_double lo hi).
  pose proof (capacity_half size). nia.
Qed.

(** Two slots of different rows differ. *)
Lemma slot_formula_rows_apart lo hi lo' hi' :
  valid_pair size lo hi -> valid_pair size lo' hi' -> lo < lo' ->
  slot_formula size lo hi < slot_formula size lo' hi'.
Proof.
  intros [[Hlo Hlt] Hhi] [[Hlo' Hlt'] Hhi'] Hrows.
  rewrite (slot_formula_row lo hi), (slot_formula_row lo' hi').
  pose proof (row_start_mono (Z.to_nat (lo' - (lo + 1))) (lo + 1)
                ltac:(lia) ltac:(lia)) as Hmono.
  replace (lo + 1 + Z.of_nat (Z.to_nat (lo' - (lo + 1)))) with lo' in Hmono by lia.
  replace (lo + 1 + 1) with (lo + 2) in Hmono by lia.
  rewrite slot_formula_next_row in Hmono. lia.
Qed.

Lemma slot_formula_inj lo hi lo' hi' :
  valid_pair size lo hi -> valid_pair size lo' hi' ->
  slot_formula size lo hi = slot_formula size lo' hi' -> lo = lo' /\ hi = hi'.
Proof.
  intros Hv Hv' Heq.
  destruct (Z.lt_trichotomy lo lo') as [Hlt | [-> | Hgt]].
  - pose proof (slot_formula_rows_apart _ _ _ _ Hv Hv' Hlt). lia.
  - split; [reflexivity|].
    rewrite (slot_formula_row lo' hi), (slot_formula_row lo' hi') in Heq. lia.
  - pose proof (slot_formula_rows_apart _ _ _ _ Hv' Hv Hgt). lia.
Qed.



End Triangle.

(** Without wrap-around, Go computes the formula. *)
Lemma connId_exact size lo hi :
  size * (size - 1) <= GoInt.max_int -> valid_pair size lo hi ->
  connId size lo hi = slot_formula size lo hi.
Proof.
  intros Hfit [[Hlo Hlt] Hhi].
  pose proof (consecutive_half lo) as Hhalf.
  assert (size <= size * (size - 1) + 1) by nia.
  assert (0 <= lo * (size - 1) <= size * (size - 1)) by nia.
  assert (0 <= lo * (size - 1) + hi - 1 <= size * (size - 1)) by nia.
  assert (0 <= lo * (lo + 1) <= size * (size - 1)) by nia.
  pose proof (slot_formula_range size lo hi ltac:(unfold valid_pair; lia)) as Hr.
  pose proof (capacity_half size) as Hcap.
  unfold connId, slot_formula in *. unfold GoInt.sub, GoInt.add, GoInt.mul, GoInt.div.
  rewrite (wrap_id (size - 1)) by fits.
  rewrite (wrap_id (lo * (size - 1))) by fits.
  rewrite (wrap_id (lo * (size - 1) + hi)) by fits.
  rewrite (wrap_id (lo * (size - 1) + hi - 1)) by fits.
  rewrite (wrap_id (lo + 1)) by fits.
  rewrite (wrap_id (lo * (lo + 1))) by fits.
  rewrite Z.quot_div_nonneg by lia.
  rewrite (wrap_id (lo * (lo + 1) / 2)) by fits.
  apply wrap_id. fits.
Qed.

(** Without wrap-around, the constructor allocates [size*(size-1)/2] slots,
    all of them [CT_NONE]. *)
Lemma NewMixedMatrix_exact size :
  0 < size -> size * (size - 1) <= GoInt.max_int ->
  NewMixedMatrix size =
    Ok (mkMixedMatrix (replicate (Z.to_nat (size * (size - 1) / 2)) CT_NONE) size ∅ 0 0).
Proof.
  intros Hsize Hfit. unfold NewMixedMatrix.
  pose proof (capacity_half size) as Hcap.
  assert (0 <= size * (size - 1)) by nia.
  assert (size <= size * (size - 1) + 1) by nia.
  destruct (Z.leb_spec size 0) as [|_]; [lia|].
  unfold GoInt.sub, GoInt.mul, GoInt.div.
  rewrite (wrap_id (size - 1)) by fits.
  rewrite (wrap_id (size * (size - 1))) by fits.
  rewrite Z.quot_div_nonneg by lia.
  rewrite (wrap_id (size * (size - 1) / 2)) by fits.
  destruct (Z.ltb_spec (size * (size - 1) / 2) 0) as [|_]; [lia|]. reflexivity.
Qed.



(* ------------------------------------------------------------------------- *)
(** ** The indexing routine *)

Lemma ordered_connId_sym size i1 i2 :
  ordered_connId size i1 i2 = ordered_connId size i2 i1.
Proof.
  unfold ordered_connId. rewrite !Z.gtb_ltb.
  destruct (Z.ltb_spec i2 i1), (Z.ltb_spec i1 i2); try reflexivity; try lia.
  replace i2 with i1 by lia. reflexivity.
Qed.

Lemma same_slots_refl g : same_slots g g.
Proof. unfold same_slots. auto. Qed.

Lemma same_slots_trans g1 g2 g3 :
  same_slots g1 g2 -> same_slots g2 g3 -> same_slots g1 g3.
Proof. unfold same_slots. intuition congruence. Qed.

(** Equal ids are refused before anything else, whatever [create] is. *)
Lemma getConnectionId_equal node create g :
  getConnectionId node node create g =
    (Panic (in_getConnectionId (NewError "Equal nodes.")), g).
Proof.
  unfold getConnectionId, deferred, bind, get, lookup_id.
  destruct (VertexIds g !! node); simpl;
    rewrite bool_decide_eq_true_2 by reflexivity; reflexivity.
Qed.

(** Without creation the routine only reads the store. *)
Lemma getConnectionId_query node1 node2 g :
  getConnectionId node1 node2 false g =
    (if bool_decide (node1 = node2) then
       Panic (in_getConnectionId (NewError "Equal nodes."))
     else match VertexIds g !! node1, VertexIds g !! node2 with
          | None, _ =>
              Panic (in_getConnectionId (NewError "First node doesn't exist in graph"))
          | Some _, None =>
              Panic (in_getConnectionId (NewError "Second node doesn't exist in graph"))
          | Some i1, Some i2 => Ok (ordered_connId (size g) i1 i2)
          end, g).
Proof.
  unfold getConnectionId, deferred, bind, get, lookup_id, ordered_connId.
  destruct (VertexIds g !! node1) as [i1|], (VertexIds g !! node2) as [i2|];
    simpl; case_bool_decide; simpl; try reflexivity.
  destruct (i1 >? i2); reflexivity.
Qed.

(** Two distinct mapped ids: the routine returns their slot and leaves the
    store alone, with or without creation. *)
Lemma getConnectionId_mapped node1 node2 create g i1 i2 :
  node1 <> node2 ->
  VertexIds g !! node1 = Some i1 -> VertexIds g !! node2 = Some i2 ->
  getConnectionId node1 node2 create g = (Ok (ordered_connId (size g) i1 i2), g).
Proof.
  intros Hne H1 H2.
  unfold getConnectionId, deferred, bind, get, lookup_id, ordered_connId.
  rewrite H1, H2. simpl. rewrite bool_decide_eq_false_2 by assumption.
  destruct create; simpl; destruct (i1 >? i2); reflexivity.
Qed.

(** An unmapped id and no place left: the routine panics for capacity, and
    the store is as it was. *)
Lemma getConnectionId_full node1 node2 g :
  node1 <> node2 ->
  VertexIds g !! node1 = None \/ VertexIds g !! node2 = None ->
  GoInt.sub (size g) (len_VertexIds g) < 1 ->
  getConnectionId node1 node2 true g
    = (Panic (in_getConnectionId (NewError "Not enough space to create new node.")), g).
Proof.
  intros Hne Hun Hfull.
  unfold getConnectionId, deferred, bind, get, lookup_id.
  destruct (VertexIds g !! node1), (VertexIds g !! node2), Hun; try discriminate;
    simpl; rewrite bool_decide_eq_false_2 by assumption; simpl;
    destruct (Z.ltb_spec (GoInt.sub (size g) (len_VertexIds g)) 1);
    try reflexivity; lia.
Qed.

(** With creation the routine touches the vertex map only; when it panics
    it has touched nothing, and when it returns both ids are mapped and the
    slot is the one a query finds afterwards, in either order of the ids. *)
Lemma getConnectionId_create node1 node2 g r g' :
  getConnectionId node1 node2 true g = (r, g') ->
  same_slots g g' /\
  match r with
  | Panic _ => g' = g
  | Ok conn =>
      node1 <> node2 /\
      getConnectionId node1 node2 false g' = (Ok conn, g') /\
      getConnectionId node2 node1 false g' = (Ok conn, g')
  end.
Proof.
  intros Hrun.
  assert (Hsym : forall n1 n2 c h, n1 <> n2 ->
            getConnectionId n1 n2 false h = (Ok c, h) ->
            getConnectionId n2 n1 false h = (Ok c, h)).
  { intros n1 n2 c h Hne. rewrite !getConnectionId_query.
    rewrite !bool_decide_eq_false_2 by congruence.
    destruct (VertexIds h !! n1), (VertexIds h !! n2); try discriminate.
    rewrite ordered_connId_sym. trivial. }
  revert Hrun.
  unfold getConnectionId at 1.
  unfold deferred, bind, get, lookup_id, new_id, ret, panic.
  destruct (VertexIds g !! node1) as [i1|] eqn:H1,
           (VertexIds g !! node2) as [i2|] eqn:H2; simpl;
    case_bool_decide as Hne; simpl;
    try (intros [= <- <-]; split; [apply same_slots_refl | reflexivity]).
  - (* both mapped *)
    intros Hrun.
    assert (r = Ok (ordered_connId (size g) i1 i2) /\ g' = g) as [-> ->].
    { unfold ordered_connId. destruct (i1 >? i2); injection Hrun; auto. }
    split; [apply same_slots_refl|].
    assert (getConnectionId node1 node2 false g = (Ok (ordered_connId (size g) i1 i2), g)) as Hq.
    { rewrite getConnectionId_query, bool_decide_eq_false_2, H1, H2 by assumption.
      reflexivity. }
    auto.
  - (* second id missing *)
    destruct (GoInt.sub (size g) (len_VertexIds g) <? 1); simpl;
      [intros [= <- <-]; split; [apply same_slots_refl | reflexivity]|].
    intros Hrun.
    set (h := set_VertexIds g (<[node2 := len_VertexIds g]> (VertexIds g))) in *.
    assert (r = Ok (ordered_connId (size g) i1 (len_VertexIds g)) /\ g' = h) as [-> ->].
    { unfold ordered_connId. destruct (i1 >? len_VertexIds g); injection Hrun; auto. }
    split; [unfold same_slots; auto|].
    assert (getConnectionId node1 node2 false h
            = (Ok (ordered_connId (size g) i1 (len_VertexIds g)), h)) as Hq.
    { rewrite getConnectionId_query, bool_decide_eq_false_2 by assumption.
      simpl. rewrite lookup_insert_ne by congruence. rewrite H1, lookup_insert_eq.
      reflexivity. }
    auto.
  - (* first id missing *)
    destruct (GoInt.sub (size g) (len_VertexIds g) <? 1); simpl;
      [intros [= <- <-]; split; [apply same_slots_refl | reflexivity]|].
    intros Hrun.
    set (h := set_VertexIds g (<[node1 := len_VertexIds g]> (VertexIds g))) in *.
    assert (r = Ok (ordered_connId (size g) (len_VertexIds g) i2) /\ g' = h) as [-> ->].
    { unfold ordered_connId. destruct (len_VertexIds g >? i2); injection Hrun; auto. }
    split; [unfold same_slots; auto|].
    assert (getConnectionId node1 node2 false h
            = (Ok (ordered_connId (size g) (len_VertexIds g) i2), h)) as Hq.
    { rewrite getConnectionId_query, bool_decide_eq_false_2 by assumption.
      simpl. rewrite lookup_insert_eq. rewrite lookup_insert_ne by congruence.
      rewrite H2. reflexivity. }
    auto.
  - (* both ids missing *)
    destruct (GoInt.sub (size g) (len_VertexIds g) <? 1); simpl;
      [intros [= <- <-]; split; [apply same_slots_refl | reflexivity]|].
    intros Hrun.
    set (h1 := set_VertexIds g (<[node1 := len_VertexIds g]> (VertexIds g))) in *.
    set (h := set_VertexIds h1 (<[node2 := len_VertexIds h1]> (VertexIds h1))) in *.
    assert (r = Ok (ordered_connId (size g) (len_VertexIds g) (len_VertexIds h1))
            /\ g' = h) as [-> ->].
    { unfold ordered_connId.
      destruct (len_VertexIds g >? len_VertexIds h1); injection Hrun; auto. }
    split; [unfold same_slots; auto|].
    assert (getConnectionId node1 node2 false h
            = (Ok (ordered_connId (size g) (len_VertexIds g) (len_VertexIds h1)), h)) as Hq.
    { rewrite getConnectionId_query, bool_decide_eq_false_2 by assumption.
      simpl. rewrite lookup_insert_ne by congruence.
      rewrite !lookup_insert_eq. reflexivity. }
    auto.
Qed.

(* ------------------------------------------------------------------------- *)
(** ** Reading and writing a slot *)

Lemma index_Ok {A} (s : list A) (i : Z) (a : A) :
  index s i = Ok a <-> 0 <= i /\ s !! Z.to_nat i = Some a.
Proof.
  unfold index. destruct (Z.ltb_spec i 0).
  - split; [discriminate | lia].
  - destruct (s !! Z.to_nat i) eqn:Hl; split.
    + intros [= ->]. auto.
    + intros [_ [= ->]]. reflexivity.
    + discriminate.
    + intros [_ [=]].
  Qed.

Lemma store_Ok {A} (s : list A) (i : Z) (a b : A) :
  index s i = Ok a -> store s i b = Ok (<[Z.to_nat i := b]> s).
Proof.
  intros [Hi Hl]%index_Ok. unfold store.
  apply lookup_lt_Some in Hl.
  destruct (Z.ltb_spec i 0); [lia|].
  destruct (Z.ltb_spec i (Z.of_nat (length s))); [reflexivity | lia].
Qed.

Lemma index_store_eq {A} (s : list A) (i : Z) (a b : A) :
  index s i = Ok a -> index (<[Z.to_nat i := b]> s) i = Ok b.
Proof.
  intros [Hi Hl]%index_Ok. apply index_Ok. split; [assumption|].
  apply list_lookup_insert_eq. eapply lookup_lt_Some; eassumption.
Qed.

(** The four writers have one shape: find the slot with creation allowed,
    read it, panic unless it holds what the operation expects, else
    overwrite it and move one counter. *)
Section Writers.

Variables (node1 node2 : VertexId) (g : MixedMatrix).

Lemma AddEdge_inv r g' :
  AddEdge node1 node2 g = (r, g') ->
  match r with
  | Ok _ => exists conn g1,
      getConnectionId node1 node2 true g = (Ok conn, g1) /\
      index (nodes g1) conn = Ok CT_NONE /\
      g' = updated g1 conn CT_UNDIRECTED (GoInt.add (edgesCnt g1) 1) (arcsCnt g1)
  | Panic _ => same_slots g g'
  end.
Proof.
  unfold AddEdge, deferred, bind.
  destruct (getConnectionId node1 node2 true g) as [[conn|e] g1] eqn:Hconn;
    destruct (getConnectionId_create _ _ _ _ _ Hconn) as [Hsame _];
    [|intros [= <- <-]; exact Hsame].
  unfold read_node, write_node, edgesCnt_incr, panic.
  destruct (index (nodes g1) conn) as [t|e] eqn:Hread;
    [|intros [= <- <-]; exact Hsame].
  case_bool_decide as Ht; [intros [= <- <-]; exact Hsame|].
  assert (t = CT_NONE) as -> by (destruct t; congruence).
  rewrite (store_Ok _ _ _ _ Hread). intros [= <- <-]. eauto.
Qed.

Lemma RemoveEdge_inv r g' :
  RemoveEdge node1 node2 g = (r, g') ->
  match r with
  | Ok _ => exists conn g1,
      getConnectionId node1 node2 true g = (Ok conn, g1) /\
      index (nodes g1) conn = Ok CT_UNDIRECTED /\
      g' = updated g1 conn CT_NONE (GoInt.sub (edgesCnt g1) 1) (arcsCnt g1)
  | Panic _ => same_slots g g'
  end.
Proof.
  unfold RemoveEdge, deferred, bind.
  destruct (getConnectionId node1 node2 true g) as [[conn|e] g1] eqn:Hconn;
    destruct (getConnectionId_create _ _ _ _ _ Hconn) as [Hsame _];
    [|intros [= <- <-]; exact Hsame].
  unfold read_node, write_node, edgesCnt_decr, panic.
  destruct (index (nodes g1) conn) as [t|e] eqn:Hread;
    [|intros [= <- <-]; exact Hsame].
  case_bool_decide as Ht; [intros [= <- <-]; exact Hsame|].
  assert (t = CT_UNDIRECTED) as -> by (destruct t; congruence).
  rewrite (store_Ok _ _ _ _ Hread). intros [= <- <-]. eauto.
Qed.

Lemma AddArc_inv r g' :
  AddArc node1 node2 g = (r, g') ->
  match r with
  | Ok _ => exists conn g1,
      getConnectionId node1 node2 true g = (Ok conn, g1) /\
      index (nodes g1) conn = Ok CT_NONE /\
      g' = updated g1 conn (arcType node1 node2) (edgesCnt g1) (GoInt.add (arcsCnt g1) 1)
  | Panic _ => same_slots g g'
  end.
Proof.
  unfold AddArc, deferred, bind.
  destruct (getConnectionId node1 node2 true g) as [[conn|e] g1] eqn:Hconn;
    destruct (getConnectionId_create _ _ _ _ _ Hconn) as [Hsame _];
    [|intros [= <- <-]; exact Hsame].
  unfold read_node, write_node, arcsCnt_incr, panic, arcType.
  destruct (index (nodes g1) conn) as [t|e] eqn:Hread;
    [|intros [= <- <-]; exact Hsame].
  case_bool_decide as Ht; [intros [= <- <-]; exact Hsame|].
  assert (t = CT_NONE) as -> by (destruct t; congruence).
  destruct (node1 <? node2)%N;
    rewrite (store_Ok _ _ _ _ Hread); intros [= <- <-]; eauto.
Qed.

Lemma RemoveArc_inv r g' :
  RemoveArc node1 node2 g = (r, g') ->
  match r with
  | Ok _ => exists conn g1,
      getConnectionId node1 node2 true g = (Ok conn, g1) /\
      index (nodes g1) conn = Ok (arcType node1 node2) /\
      g' = updated g1 conn CT_NONE (edgesCnt g1) (GoInt.sub (arcsCnt g1) 1)
  | Panic _ => same_slots g g'
  end.
Proof.
  unfold RemoveArc, deferred, bind.
  destruct (getConnectionId node1 node2 true g) as [[conn|e] g1] eqn:Hconn;
    destruct (getConnectionId_create _ _ _ _ _ Hconn) as [Hsame _];
    [|intros [= <- <-]; exact Hsame].
  unfold read_node, write_node, arcsCnt_decr, panic.
  destruct (index (nodes g1) conn) as [t|e] eqn:Hread;
    [|intros [= <- <-]; exact Hsame].
  case_bool_decide as Ht; [intros [= <- <-]; exact Hsame|].
  assert (t = arcType node1 node2) as -> by (destruct (decide (t = arcType node1 node2)); congruence).
  rewrite (store_Ok _ _ _ _ Hread). intros [= <- <-]. eauto.
Qed.

End Writers.

(** The readers leave the store as it is. *)
Lemma getConnectionId_query_store node1 node2 g :
  snd (getConnectionId node1 node2 false g) = g.
Proof. rewrite getConnectionId_query. reflexivity. Qed.

Lemma CheckEdge_store node1 node2 g : snd (CheckEdge node1 node2 g) = g.
Proof.
  unfold CheckEdge, deferred, bind, read_node, ret.
  case_bool_decide; [reflexivity|].
  rewrite getConnectionId_query. case_bool_decide; [reflexivity|].
  destruct (VertexIds g !! node1), (VertexIds g !! node2); try reflexivity.
  destruct (index _ _); reflexivity.
Qed.

Lemma CheckArc_store tail head g : snd (CheckArc tail head g) = g.
Proof.
  unfold CheckArc, deferred, bind, read_node, ret.
  rewrite getConnectionId_query. case_bool_decide; [reflexivity|].
  destruct (VertexIds g !! tail), (VertexIds g !! head); try reflexivity.
  destruct (index _ _); reflexivity.
Qed.

Lemma CheckEdgeType_store tail head g : snd (CheckEdgeType tail head g) = g.
Proof.
  unfold CheckEdgeType, deferred, bind, read_node, ret.
  rewrite getConnectionId_query. case_bool_decide; [reflexivity|].
  destruct (VertexIds g !! tail), (VertexIds g !! head); try reflexivity.
  destruct (index _ _) as [t|]; [|reflexivity].
  destruct (bool_decide (t = CT_DIRECTED) && (head <? tail)%N); reflexivity.
Qed.

Lemma AddNode_same_slots node g : same_slots g (snd (AddNode node g)).
Proof.
  unfold AddNode, deferred, bind, get, put, panic.
  destruct (decide (is_Some (VertexIds g !! node))); [apply same_slots_refl|].
  destruct (len_VertexIds g =? size g); simpl; unfold same_slots; auto.
Qed.

(** A query after the slot was written finds the same slot: the routine
    reads the vertex map and the capacity only. *)
Lemma getConnectionId_query_updated node1 node2 g conn c t edges arcs :
  getConnectionId node1 node2 false g = (Ok c, g) ->
  getConnectionId node1 node2 false (updated g conn t edges arcs)
    = (Ok c, updated g conn t edges arcs).
Proof.
  rewrite !getConnectionId_query. simpl.
  case_bool_decide; [discriminate|].
  destruct (VertexIds g !! node1), (VertexIds g !! node2); try discriminate.
  intros [= <-]. reflexivity.
Qed.

Lemma arcType_reversed tail head :
  tail <> head -> arcType head tail <> arcType tail head.
Proof.
  unfold arcType. intros Hne.
  destruct (N.ltb_spec tail head), (N.ltb_spec head tail); try discriminate; lia.
Qed.

(* ------------------------------------------------------------------------- *)
(** ** Sequences of calls *)

Lemma build_reachable size cs g : build size cs = Some g -> reachable g.
Proof.
  unfold build. destruct (NewMixedMatrix size) as [g0|] eqn:Hnew; [|discriminate].
  intros [= <-]. apply reachable_new in Hnew. revert g0 Hnew.
  induction cs as [|c cs IH]; intros g0 Hg0; simpl; [assumption|].
  apply IH. apply reachable_call. assumption.
Qed.

(* ------------------------------------------------------------------------- *)
(** ** Arcs *)

(** C7. After a successful [AddArc(tail, head)], [CheckArc(tail, head)]
    returns true and [CheckArc(head, tail)] returns false, in every store
    and whatever the order of the two ids or of their internal indices. *)
Theorem AddArc_CheckArc (tail head : VertexId) (g g' : MixedMatrix) :
  AddArc tail head g = (Ok tt, g') ->
  CheckArc tail head g' = (Ok true, g') /\
  CheckArc head tail g' = (Ok false, g').
Proof.
  intros Hadd. apply AddArc_inv in Hadd.
  destruct Hadd as (conn & g1 & Hconn & Hread & ->).
  apply getConnectionId_create in Hconn.
  destruct Hconn as (_ & Hne & Hfwd & Hbwd).
  pose proof (index_store_eq _ _ _ (arcType tail head) Hread) as Hnow.
  split; unfold CheckArc, deferred, bind, read_node, ret.
  - rewrite (getConnectionId_query_updated _ _ _ _ _ _ _ _ Hfwd). simpl.
    rewrite Hnow. rewrite bool_decide_eq_true_2 by reflexivity. reflexivity.
  - rewrite (getConnectionId_query_updated _ _ _ _ _ _ _ _ Hbwd). simpl.
    rewrite Hnow.
    rewrite bool_decide_eq_false_2; [reflexivity|].
    intros Heq. symmetry in Heq. revert Heq. apply arcType_reversed. assumption.
Qed.

Lemma AddArc_CheckArc_witness :
  exists g g',
    build 4 [CallAddNode 0; CallAddNode 1; CallAddNode 2; CallAddNode 3]%N = Some g /\
    AddArc 2%N 0%N g = (Ok tt, g') /\
    CheckArc 2%N 0%N g' = (Ok true, g') /\
    CheckArc 0%N 2%N g' = (Ok false, g').
Proof.
  eexists. eexists.
  split; [vm_compute; reflexivity|].
  assert (Hadd : AddArc 2%N 0%N
                   (mkMixedMatrix (replicate 6 CT_NONE) 4
                      (<[3%N := 3]> (<[2%N := 2]> (<[1%N := 1]> (<[0%N := 0]> ∅)))) 0 0)
                 = (Ok tt,
                    mkMixedMatrix (<[1%nat := CT_DIRECTED_REVERSED]> (replicate 6 CT_NONE)) 4
                      (<[3%N := 3]> (<[2%N := 2]> (<[1%N := 1]> (<[0%N := 0]> ∅)))) 0 1))
    by (vm_compute; reflexivity).
  split; [exact Hadd|].
  exact (AddArc_CheckArc _ _ _ _ Hadd).
Defined.

(** C2, as stated, fails: in a store of capacity 4 where vertex 5 was added
    before vertex 3, vertex 5 has internal index 0 and vertex 3 has internal
    index 1; [AddArc(5, 3)] succeeds, tail's internal index is the smaller
    one, and the slot holds [CT_DIRECTED_REVERSED]. *)
Lemma AddArc_index_order_counterexample :
  exists g,
    build 4 [CallAddNode 5; CallAddNode 3]%N = Some g /\
    ~ AddArc_encodes_index_order g 5%N 3%N.
Proof.
  eexists. split; [vm_compute; reflexivity|].
  intros Hclaim.
  edestruct Hclaim as (i & j & conn & Hi & Hj & Hconn & Hslot);
    [vm_compute; reflexivity|].
  vm_compute in Hi. vm_compute in Hj. vm_compute in Hconn.
  injection Hi as <-. injection Hj as <-. injection Hconn as <-.
  vm_compute in Hslot. discriminate Hslot.
Qed.

(** C2, amended. After every successful [AddArc(tail, head)] the slot of
    the pair (the one a query for the pair finds, in either order of the two
    ids) holds [CT_DIRECTED] if the vertex id [tail] is smaller than the
    vertex id [head], and [CT_DIRECTED_REVERSED] otherwise: the encoding
    follows the order of the vertex ids; the internal indices only select
    the slot. *)
Theorem AddArc_encodes_id_order (tail head : VertexId) (g g' : MixedMatrix) :
  AddArc tail head g = (Ok tt, g') ->
  exists conn,
    getConnectionId tail head false g' = (Ok conn, g') /\
    getConnectionId head tail false g' = (Ok conn, g') /\
    index (nodes g') conn
      = Ok (if (tail <? head)%N then CT_DIRECTED else CT_DIRECTED_REVERSED).
Proof.
  intros Hadd. apply AddArc_inv in Hadd.
  destruct Hadd as (conn & g1 & Hconn & Hread & ->).
  apply getConnectionId_create in Hconn.
  destruct Hconn as (_ & Hne & Hfwd & Hbwd).
  exists conn. split; [|split].
  - apply getConnectionId_query_updated. assumption.
  - apply getConnectionId_query_updated. assumption.
  - simpl. eapply index_store_eq. eassumption.
Qed.

Lemma AddArc_encodes_id_order_witness :
  exists g g',
    build 4 [CallAddNode 5; CallAddNode 3]%N = Some g /\
    AddArc 5%N 3%N g = (Ok tt, g') /\
    VertexIds g' !! 5%N = Some 0 /\
    VertexIds g' !! 3%N = Some 1 /\
    getConnectionId 5%N 3%N false g' = (Ok 0, g') /\
    index (nodes g') 0 = Ok CT_DIRECTED_REVERSED.
Proof.
  eexists. eexists.
  split; [vm_compute; reflexivity|].
  assert (Hadd : AddArc 5%N 3%N
                   (mkMixedMatrix (replicate 6 CT_NONE) 4
                      (<[3%N := 1]> (<[5%N := 0]> ∅)) 0 0)
                 = (Ok tt,
                    mkMixedMatrix (<[0%nat := CT_DIRECTED_REVERSED]> (replicate 6 CT_NONE)) 4
                      (<[3%N := 1]> (<[5%N := 0]> ∅)) 0 1))
    by (vm_compute; reflexivity).
  split; [exact Hadd|].
  destruct (AddArc_encodes_id_order _ _ _ _ Hadd) as (conn & Hfwd & _ & Hslot).
  split; [reflexivity|]. split; [reflexivity|].
  assert (conn = 0) as -> by (vm_compute in Hfwd; congruence).
  split; [exact Hfwd | exact Hslot].
Defined.

(** What [CheckEdgeType] answers about an arc just added: asked in the
    direction of the arc it returns the state of the slot as stored, asked
    against the direction it returns [CT_DIRECTED_REVERSED]. *)
Lemma CheckEdgeType_after_AddArc (tail head : VertexId) (g g' : MixedMatrix) :
  AddArc tail head g = (Ok tt, g') ->
  CheckEdgeType tail head g' = (Ok (arcType tail head), g') /\
  CheckEdgeType head tail g' = (Ok CT_DIRECTED_REVERSED, g').
Proof.
  intros Hadd. apply AddArc_inv in Hadd.
  destruct Hadd as (conn & g1 & Hconn & Hread & ->).
  apply getConnectionId_create in Hconn.
  destruct Hconn as (_ & Hne & Hfwd & Hbwd).
  pose proof (index_store_eq _ _ _ (arcType tail head) Hread) as Hnow.
  split; unfold CheckEdgeType, deferred, bind, read_node, ret.
  - rewrite (getConnectionId_query_updated _ _ _ _ _ _ _ _ Hfwd). simpl.
    rewrite Hnow. unfold arcType.
    destruct (N.ltb_spec tail head), (N.ltb_spec head tail); try reflexivity; lia.
  - rewrite (getConnectionId_query_updated _ _ _ _ _ _ _ _ Hbwd). simpl.
    rewrite Hnow. unfold arcType.
    destruct (N.ltb_spec tail head), (N.ltb_spec head tail); try reflexivity; lia.
Qed.

(** C3, at the scenario of the specification. Capacity 4, vertices
    A = 0, B = 1, C = 2, D = 3 added in that order, then [AddArc(C, A)]: the
    arc runs C -> A and [CheckArc(C, A)] says so, but [CheckEdgeType(C, A)]
    returns [CT_DIRECTED_REVERSED], the state of the slot, which is also
    what [CheckEdgeType(A, C)] returns. *)
Theorem CheckEdgeType_reports_slot_state :
  exists g g',
    build 4 [CallAddNode 0; CallAddNode 1; CallAddNode 2; CallAddNode 3]%N = Some g /\
    AddArc 2%N 0%N g = (Ok tt, g') /\
    CheckArc 2%N 0%N g' = (Ok true, g') /\
    CheckEdgeType 2%N 0%N g' = (Ok CT_DIRECTED_REVERSED, g') /\
    CheckEdgeType 0%N 2%N g' = (Ok CT_DIRECTED_REVERSED, g').
Proof.
  eexists. eexists.
  split; [vm_compute; reflexivity|].
  split; [vm_compute; reflexivity|].
  repeat split; vm_compute; reflexivity.
Qed.

(* ------------------------------------------------------------------------- *)
(** ** Capacity *)

(** C4, at a store of capacity 3 that holds the vertices 10 and 20, so that
    one place is left. [AddEdge(30, 40)] needs two places. The routine does
    not panic for capacity: it maps 30 to index 2 and 40 to index 3, and the
    call panics afterwards, on the slot index 3 of a slice of length 3. The
    store is left with four vertices, one more than its capacity. *)
Theorem AddEdge_two_new_nodes_one_place :
  exists g g',
    build 3 [CallAddNode 10; CallAddNode 20]%N = Some g /\
    size g - Order g = 1 /\
    VertexIds g !! 30%N = None /\ VertexIds g !! 40%N = None /\
    getConnectionId 30%N 40%N true g = (Ok 3, g') /\
    AddEdge 30%N 40%N g
      = (Panic (NewSequent "Add edge to mixed graph." (IndexOutOfRange 3 3)), g') /\
    VertexIds g' !! 30%N = Some 2 /\ VertexIds g' !! 40%N = Some 3 /\
    Order g' = 4 /\ size g' = 3.
Proof.
  eexists. eexists.
  split; [vm_compute; reflexivity|].
  split; [vm_compute; reflexivity|].
  split; [vm_compute; reflexivity|].
  split; [vm_compute; reflexivity|].
  split; [vm_compute; reflexivity|].
  repeat split; vm_compute; reflexivity.
Qed.

(* ------------------------------------------------------------------------- *)
(** ** Removal *)

(** Between two mapped vertices the removers do what they say: without the
    connection they panic and the store is as it was. *)
Lemma RemoveEdge_mapped_absent node1 node2 g i1 i2 t :
  node1 <> node2 ->
  VertexIds g !! node1 = Some i1 -> VertexIds g !! node2 = Some i2 ->
  index (nodes g) (ordered_connId (size g) i1 i2) = Ok t -> t <> CT_UNDIRECTED ->
  RemoveEdge node1 node2 g
    = (Panic (NewSequent "Remove edge from mixed graph."
                (NewError "Edge doesn't exists.")), g).
Proof.
  intros Hne H1 H2 Hread Ht. unfold RemoveEdge, deferred, bind, read_node, panic.
  rewrite (getConnectionId_mapped _ _ _ _ _ _ Hne H1 H2), Hread.
  rewrite bool_decide_eq_true_2 by assumption. reflexivity.
Qed.

Lemma RemoveArc_mapped_absent tail head g i1 i2 t :
  tail <> head ->
  VertexIds g !! tail = Some i1 -> VertexIds g !! head = Some i2 ->
  index (nodes g) (ordered_connId (size g) i1 i2) = Ok t -> t <> arcType tail head ->
  RemoveArc tail head g
    = (Panic (NewSequent "Remove arc from mixed graph."
                (NewError "Arc doesn't exists.")), g).
Proof.
  intros Hne H1 H2 Hread Ht. unfold RemoveArc, deferred, bind, read_node, panic.
  rewrite (getConnectionId_mapped _ _ _ _ _ _ Hne H1 H2), Hread.
  rewrite bool_decide_eq_true_2 by assumption. reflexivity.
Qed.

(** C5, at a new store of capacity 4. [RemoveEdge(1, 2)] and
    [RemoveArc(1, 2)] panic because there is no such connection, and each
    leaves a store in which the vertices 1 and 2 are mapped: the order went
    from 0 to 2. *)
Theorem Remove_creates_vertices :
  exists g g',
    build 4 [] = Some g /\
    Order g = 0 /\
    RemoveEdge 1%N 2%N g
      = (Panic (NewSequent "Remove edge from mixed graph."
                  (NewError "Edge doesn't exists.")), g') /\
    RemoveArc 1%N 2%N g
      = (Panic (NewSequent "Remove arc from mixed graph."
                  (NewError "Arc doesn't exists.")), g') /\
    VertexIds g' !! 1%N = Some 0 /\ VertexIds g' !! 2%N = Some 1 /\
    Order g' = 2.
Proof.
  eexists. eexists.
  split; [vm_compute; reflexivity|].
  split; [vm_compute; reflexivity|].
  split; [vm_compute; reflexivity|].
  repeat split; vm_compute; reflexivity.
Qed.

(* ------------------------------------------------------------------------- *)
(** ** Equal and unmapped ids *)

(** C9. For every id [u] and every store, [CheckEdge(u, u)] returns false
    without a panic; [AddEdge], [RemoveEdge], [AddArc], [RemoveArc],
    [CheckArc] and [CheckEdgeType] on [(u, u)] panic with the indexing
    routine's "Equal nodes." error; none of the seven calls changes the
    store. *)
Theorem equal_ids (u : VertexId) (g : MixedMatrix) :
  CheckEdge u u g = (Ok false, g) /\
  AddEdge u u g = (Panic (NewSequent "Add edge to mixed graph." equal_nodes), g) /\
  RemoveEdge u u g = (Panic (NewSequent "Remove edge from mixed graph." equal_nodes), g) /\
  AddArc u u g = (Panic (NewSequent "Add arc to mixed graph." equal_nodes), g) /\
  RemoveArc u u g = (Panic (NewSequent "Remove arc from mixed graph." equal_nodes), g) /\
  CheckArc u u g = (Panic (NewSequent "Check arc in mixed graph." equal_nodes), g) /\
  CheckEdgeType u u g
    = (Panic (NewSequent "Check edge type in mixed graph." equal_nodes), g).
Proof.
  unfold equal_nodes, CheckEdge, AddEdge, RemoveEdge, AddArc, RemoveArc, CheckArc, CheckEdgeType.
  unfold deferred, bind, ret.
  rewrite !getConnectionId_equal.
  rewrite bool_decide_eq_true_2 by reflexivity.
  repeat split; reflexivity.
Qed.

Lemma getConnectionId_unmapped node1 node2 g :
  node1 <> node2 ->
  VertexIds g !! node1 = None \/ VertexIds g !! node2 = None ->
  getConnectionId node1 node2 false g = (Panic (unmapped_error g node1), g).
Proof.
  intros Hne Hun. rewrite getConnectionId_query, bool_decide_eq_false_2 by assumption.
  unfold unmapped_error.
  destruct (VertexIds g !! node1), (VertexIds g !! node2), Hun;
    try discriminate; reflexivity.
Qed.

(** C10. For distinct ids [u], [v] of which at least one is not mapped,
    [CheckEdge(u, v)], [CheckArc(u, v)] and [CheckEdgeType(u, v)] panic,
    with the error of the indexing routine for a missing node, and the store
    is the same after the call: no vertex is created. *)
Theorem queries_on_unmapped_ids (u v : VertexId) (g : MixedMatrix) :
  u <> v ->
  VertexIds g !! u = None \/ VertexIds g !! v = None ->
  CheckEdge u v g
    = (Panic (NewSequent "Check edge in mixed graph." (unmapped_error g u)), g) /\
  CheckArc u v g
    = (Panic (NewSequent "Check arc in mixed graph." (unmapped_error g u)), g) /\
  CheckEdgeType u v g
    = (Panic (NewSequent "Check edge type in mixed graph." (unmapped_error g u)), g).
Proof.
  intros Hne Hun.
  unfold CheckEdge, CheckArc, CheckEdgeType, deferred, bind.
  rewrite bool_decide_eq_false_2 by assumption.
  rewrite !(getConnectionId_unmapped _ _ _ Hne Hun).
  repeat split; reflexivity.
Qed.

Lemma queries_on_unmapped_ids_witness :
  exists g,
    build 4 [CallAddNode 7]%N = Some g /\
    7%N <> 9%N /\
    VertexIds g !! 9%N = None /\
    CheckEdge 7%N 9%N g
      = (Panic (NewSequent "Check edge in mixed graph."
                  (in_getConnectionId (NewError "Second node doesn't exist in graph"))), g) /\
    CheckArc 7%N 9%N g
      = (Panic (NewSequent "Check arc in mixed graph."
                  (in_getConnectionId (NewError "Second node doesn't exist in graph"))), g) /\
    CheckEdgeType 7%N 9%N g
      = (Panic (NewSequent "Check edge type in mixed graph."
                  (in_getConnectionId (NewError "Second node doesn't exist in graph"))), g) /\
    Order g = 1.
Proof.
  eexists.
  split; [vm_compute; reflexivity|].
  assert (Hne : 7%N <> 9%N) by discriminate.
  split; [exact Hne|].
  split; [reflexivity|].
  pose proof (queries_on_unmapped_ids 7%N 9%N
                (mkMixedMatrix (replicate 6 CT_NONE) 4 (<[7%N := 0]> ∅) 0 0)
                Hne (or_intror eq_refl)) as (Hedge & Harc & Htype).
  split; [exact Hedge|]. split; [exact Harc|]. split; [exact Htype|].
  reflexivity.
Defined.

(* ------------------------------------------------------------------------- *)
(** ** The arcs filter *)

Lemma ConnectionsIter_inner_id arcs conn ch :
  ArcsFilter.ConnectionsIter_inner arcs conn ch = ch.
Proof.
  induction arcs as [|a arcs IH]; simpl; [reflexivity|].
  destruct (_ && _); exact IH.
Qed.

Lemma ConnectionsIter_outer_id arcs conns ch :
  ArcsFilter.ConnectionsIter_outer arcs conns ch = ch.
Proof.
  revert ch. induction conns as [|c conns IH]; intros ch; simpl; [reflexivity|].
  rewrite ConnectionsIter_inner_id. apply IH.
Qed.

(** The filter's iteration sends nothing, whatever it wraps. *)
Lemma ConnectionsIter_empty filter : ArcsFilter.ConnectionsIter filter = [].
Proof. unfold ArcsFilter.ConnectionsIter. apply ConnectionsIter_outer_id. Qed.

(** C8, at a reader that sends the connections (1, 2) and (2, 3), wrapped
    with the excluded arc (1, 2). The connection (2, 3) is sent by the
    reader and matches no excluded arc, and the filter's iteration does not
    send it: it sends nothing. *)
Theorem ConnectionsIter_drops_kept_connection :
  In (mkConnection 2 3)%N (reader_ConnectionsIter two_arcs_reader) /\
  ~ In (mkConnection 2 3)%N (arcs (NewArcsFilter two_arcs_reader [mkConnection 1 2]%N)) /\
  ArcsFilter.ConnectionsIter (NewArcsFilter two_arcs_reader [mkConnection 1 2]%N) = [].
Proof.
  split; [|split].
  - simpl. auto.
  - simpl. intros [H|[]]. discriminate H.
  - apply ConnectionsIter_empty.
Qed.

(* ------------------------------------------------------------------------- *)
(** ** The counters *)

Section Counting.

Variable p : MixedConnectionType -> bool.

Lemma count_slots_bounds ns : 0 <= count_slots p ns <= Z.of_nat (length ns).
Proof.
  induction ns as [|t ns IH]; simpl length; simpl count_slots; [lia|].
  destruct (p t); lia.
Qed.

Lemma count_slots_replicate n t :
  p t = false -> count_slots p (replicate n t) = 0.
Proof.
  intros Hp. induction n as [|n IH]; simpl; [reflexivity|].
  rewrite Hp, IH. reflexivity.
Qed.

(** Overwriting a slot moves the count by what left and what came. *)
Lemma count_slots_insert ns i old new :
  ns !! i = Some old ->
  count_slots p (<[i := new]> ns)
    = count_slots p ns - (if p old then 1 else 0) + (if p new then 1 else 0).
Proof.
  revert i. induction ns as [|t ns IH]; intros i Hi; [discriminate|].
  destruct i as [|i]; simpl in *.
  - injection Hi as ->. lia.
  - rewrite (IH i Hi). lia.
Qed.

End Counting.

Lemma count_slots_realized ns :
  count_slots realized ns = count_slots is_edge ns + count_slots is_arc ns.
Proof.
  induction ns as [|t ns IH]; simpl; [reflexivity|].
  rewrite IH.
  assert (Hcases : (if realized t then 1 else 0)
                   = (if is_edge t then 1 else 0) + (if is_arc t then 1 else 0))
    by (destruct t; reflexivity).
  lia.
Qed.

Lemma counters_ok_same_slots g g' :
  same_slots g g' -> counters_ok g -> counters_ok g'.
Proof.
  intros (Hn & _ & He & Ha) [Hedges Harcs Hfit].
  split; rewrite ?Hn, ?He, ?Ha; assumption.
Qed.

Lemma counters_ok_new size g : NewMixedMatrix size = Ok g -> counters_ok g.
Proof.
  unfold NewMixedMatrix. destruct (size <=? 0); [discriminate|].
  set (n := GoInt.div _ 2).
  destruct (Z.ltb_spec n 0); [discriminate|]. intros [= <-].
  split; simpl.
  - rewrite count_slots_replicate; reflexivity.
  - rewrite count_slots_replicate; reflexivity.
  - rewrite length_replicate.
    assert (n <= 2 ^ 62); [|lia].
    subst n. unfold GoInt.div.
    set (m := GoInt.mul size (GoInt.sub size 1)).
    pose proof (wrap_in_range (size * GoInt.sub size 1)) as Hm.
    fold (GoInt.mul size (GoInt.sub size 1)) in Hm. fold m in Hm.
    assert (- 2 ^ 62 <= m ÷ 2 <= 2 ^ 62) as Hq.
    { unfold GoInt.in_range, GoInt.min_int, GoInt.max_int in Hm.
      Z.to_euclidean_division_equations. lia. }
    rewrite wrap_id by fits. lia.
Qed.

(** Writing a slot and moving the matching counter keeps the counters
    right. The four cases are the four writers. *)
Lemma counters_ok_updated g conn old new edges arcs :
  counters_ok g ->
  index (nodes g) conn = Ok old ->
  edges = edgesCnt g - (if is_edge old then 1 else 0) + (if is_edge new then 1 else 0) ->
  arcs = arcsCnt g - (if is_arc old then 1 else 0) + (if is_arc new then 1 else 0) ->
  counters_ok (updated g conn new edges arcs).
Proof.
  intros [Hedges Harcs Hfit] [_ Hold]%index_Ok -> ->.
  split; simpl.
  - rewrite (count_slots_insert _ _ _ _ _ Hold). lia.
  - rewrite (count_slots_insert _ _ _ _ _ Hold). lia.
  - rewrite length_insert. assumption.
Qed.

(** The counters stay far inside the range of [int]. *)
Lemma counters_ok_range g :
  counters_ok g ->
  0 <= edgesCnt g /\ 0 <= arcsCnt g /\ edgesCnt g + arcsCnt g <= 2 ^ 62.
Proof.
  intros [Hedges Harcs Hfit].
  pose proof (count_slots_realized (nodes g)).
  pose proof (count_slots_bounds realized (nodes g)).
  pose proof (count_slots_bounds is_edge (nodes g)).
  pose proof (count_slots_bounds is_arc (nodes g)).
  lia.
Qed.

(** A slot that holds [old] is counted. *)
Lemma count_slots_present p ns conn old :
  index ns conn = Ok old -> p old = true -> 1 <= count_slots p ns.
Proof.
  intros [_ Hold]%index_Ok Hp. revert Hold. generalize (Z.to_nat conn) as i.
  induction ns as [|t ns IH]; intros i Hi; [discriminate|].
  pose proof (count_slots_bounds p ns).
  destruct i as [|i]; simpl in *.
  - injection Hi as ->. rewrite Hp. lia.
  - specialize (IH i Hi). destruct (p t); lia.
Qed.

Lemma counters_ok_exec c g : counters_ok g -> counters_ok (exec c g).
Proof.
  intros Hok. destruct c as [node|node|n1 n2|n1 n2|n1 n2|n1 n2|n1 n2|n1 n2|n1 n2];
    simpl.
  - (* AddNode *)
    eapply counters_ok_same_slots; [apply AddNode_same_slots | assumption].
  - (* RemoveNode *) assumption.
  - (* AddEdge *)
    destruct (AddEdge n1 n2 g) as [[[]|e] g'] eqn:Hrun; apply AddEdge_inv in Hrun;
      [|eapply counters_ok_same_slots; eassumption].
    destruct Hrun as (conn & g1 & Hconn & Hread & ->).
    apply getConnectionId_create in Hconn. destruct Hconn as [Hsame _].
    pose proof (counters_ok_same_slots _ _ Hsame Hok) as Hok1.
    pose proof (counters_ok_range _ Hok1) as (? & ? & ?).
    apply (counters_ok_updated _ _ CT_NONE); simpl; try assumption.
    + unfold GoInt.add. rewrite wrap_id by fits.
      change (edgesCnt g1 + 1 = edgesCnt g1 - 0 + 1). lia.
    + change (arcsCnt g1 = arcsCnt g1 - 0 + 0). lia.
  - (* RemoveEdge *)
    destruct (RemoveEdge n1 n2 g) as [[[]|e] g'] eqn:Hrun; apply RemoveEdge_inv in Hrun;
      [|eapply counters_ok_same_slots; eassumption].
    destruct Hrun as (conn & g1 & Hconn & Hread & ->).
    apply getConnectionId_create in Hconn. destruct Hconn as [Hsame _].
    pose proof (counters_ok_same_slots _ _ Hsame Hok) as Hok1.
    pose proof (counters_ok_range _ Hok1) as (? & ? & ?).
    pose proof (count_slots_present is_edge _ _ _ Hread eq_refl) as Hone.
    rewrite <- (edges_ok _ Hok1) in Hone.
    apply (counters_ok_updated _ _ CT_UNDIRECTED); simpl; try assumption.
    + unfold GoInt.sub. rewrite wrap_id by fits.
      change (edgesCnt g1 - 1 = edgesCnt g1 - 1 + 0). lia.
    + change (arcsCnt g1 = arcsCnt g1 - 0 + 0). lia.
  - (* CheckEdge *) rewrite CheckEdge_store. assumption.
  - (* AddArc *)
    destruct (AddArc n1 n2 g) as [[[]|e] g'] eqn:Hrun; apply AddArc_inv in Hrun;
      [|eapply counters_ok_same_slots; eassumption].
    destruct Hrun as (conn & g1 & Hconn & Hread & ->).
    apply getConnectionId_create in Hconn. destruct Hconn as [Hsame _].
    pose proof (counters_ok_same_slots _ _ Hsame Hok) as Hok1.
    pose proof (counters_ok_range _ Hok1) as (? & ? & ?).
    apply (counters_ok_updated _ _ CT_NONE); simpl; try assumption.
    + unfold arcType. destruct (n1 <? n2)%N;
        [change (edgesCnt g1 = edgesCnt g1 - 0 + 0)
        |change (edgesCnt g1 = edgesCnt g1 - 0 + 0)]; lia.
    + unfold GoInt.add. rewrite wrap_id by fits.
      unfold arcType. destruct (n1 <? n2)%N;
        [change (arcsCnt g1 + 1 = arcsCnt g1 - 0 + 1)
        |change (arcsCnt g1 + 1 = arcsCnt g1 - 0 + 1)]; lia.
  - (* RemoveArc *)
    destruct (RemoveArc n1 n2 g) as [[[]|e] g'] eqn:Hrun; apply RemoveArc_inv in Hrun;
      [|eapply counters_ok_same_slots; eassumption].
    destruct Hrun as (conn & g1 & Hconn & Hread & ->).
    apply getConnectionId_create in Hconn. destruct Hconn as [Hsame _].
    pose proof (counters_ok_same_slots _ _ Hsame Hok) as Hok1.
    pose proof (counters_ok_range _ Hok1) as (? & ? & ?).
    assert (Harc : is_arc (arcType n1 n2) = true)
      by (unfold arcType; destruct (n1 <? n2)%N; reflexivity).
    assert (Hedge : is_edge (arcType n1 n2) = false)
      by (unfold arcType; destruct (n1 <? n2)%N; reflexivity).
    pose proof (count_slots_present is_arc _ _ _ Hread Harc) as Hone.
    rewrite <- (arcs_ok _ Hok1) in Hone.
    apply (counters_ok_updated _ _ (arcType n1 n2)); simpl; try assumption.
    + rewrite Hedge. change (edgesCnt g1 = edgesCnt g1 - 0 + 0). lia.
    + rewrite Harc. unfold GoInt.sub. rewrite wrap_id by fits.
      change (arcsCnt g1 - 1 = arcsCnt g1 - 1 + 0). lia.
  - (* CheckArc *) rewrite CheckArc_store. assumption.
  - (* CheckEdgeType *) rewrite CheckEdgeType_store. assumption.
Qed.

Lemma reachable_counters_ok g : reachable g -> counters_ok g.
Proof.
  induction 1 as [size g Hnew | c g _ IH].
  - eapply counters_ok_new; eassumption.
  - apply counters_ok_exec; assumption.
Qed.

(** C6. In every store reached from a new store by calls of [AddNode],
    [RemoveNode], [AddEdge], [RemoveEdge], [AddArc], [RemoveArc] and of the
    three queries, whether the calls returned or panicked, [edgesCnt] plus
    [arcsCnt] is the number of slots that are not [CT_NONE], and
    [ConnectionsCnt()] is [EdgesCnt() + ArcsCnt()]. *)
Theorem counters_invariant (g : MixedMatrix) :
  reachable g ->
  edgesCnt g + arcsCnt g = count_slots realized (nodes g) /\
  ConnectionsCnt g = EdgesCnt g + ArcsCnt g.
Proof.
  intros Hok%reachable_counters_ok.
  pose proof (counters_ok_range _ Hok) as (? & ? & ?).
  destruct Hok as [Hedges Harcs _]. split.
  - rewrite count_slots_realized. lia.
  - unfold ConnectionsCnt, EdgesCnt, ArcsCnt, GoInt.add.
    rewrite wrap_id by fits. lia.
Qed.

Lemma counters_invariant_witness :
  exists g,
    build 3 [CallAddEdge 1 2; CallAddArc 3 1; CallAddEdge 1 2; CallRemoveArc 1 3;
             CallAddArc 2 3; CallRemoveEdge 2 1; CallAddNode 4]%N = Some g /\
    nodes g = [CT_NONE; CT_DIRECTED_REVERSED; CT_DIRECTED] /\
    edgesCnt g = 0 /\ arcsCnt g = 2 /\
    edgesCnt g + arcsCnt g = count_slots realized (nodes g) /\
    ConnectionsCnt g = EdgesCnt g + ArcsCnt g.
Proof.
  eexists.
  split; [vm_compute; reflexivity|].
  split; [reflexivity|]. split; [reflexivity|]. split; [reflexivity|].
  apply counters_invariant.
  apply (build_reachable 3
           [CallAddEdge 1 2; CallAddArc 3 1; CallAddEdge 1 2; CallRemoveArc 1 3;
            CallAddArc 2 3; CallRemoveEdge 2 1; CallAddNode 4]%N).
  vm_compute. reflexivity.
Defined.

(* ------------------------------------------------------------------------- *)
(** ** Vertices *)

Lemma AddNode_unfold node g :
  AddNode node g =
    match VertexIds g !! node with
    | Some _ => (Panic (NewSequent "Add node to graph." (NewError "Node already exists.")), g)
    | None =>
        if len_VertexIds g =? size g then
          (Panic (NewSequent "Add node to graph."
                    (NewError "Not enough space to add new node")), g)
        else (Ok tt, set_VertexIds g (<[node := len_VertexIds g]> (VertexIds g)))
    end.
Proof.
  unfold AddNode, deferred, bind, get, put, panic.
  destruct (VertexIds g !! node) as [i|] eqn:Hnode.
  - destruct (decide (is_Some (Some i))) as [_|Hno]; [reflexivity|].
    exfalso. apply Hno. eauto.
  - destruct (decide (is_Some None)) as [[? Hyes]|_]; [discriminate|].
    destruct (len_VertexIds g =? size g); reflexivity.
Qed.

(** X1. [AddNode] of an unmapped id into a store that is not full returns,
    gives the id the internal index [Order()] had before, raises [Order()]
    by one, and leaves the other vertices, the slots and the counters as
    they were. *)
Theorem AddNode_new (node : VertexId) (g : MixedMatrix) :
  VertexIds g !! node = None -> Order g <> size g ->
  exists g',
    AddNode node g = (Ok tt, g') /\
    VertexIds g' !! node = Some (Order g) /\
    CheckNode g' node = true /\
    Order g' = Order g + 1 /\
    (forall v, v <> node -> VertexIds g' !! v = VertexIds g !! v) /\
    same_slots g g'.
Proof.
  intros Hnew Hroom. rewrite AddNode_unfold, Hnew.
  unfold Order in *. destruct (Z.eqb_spec (len_VertexIds g) (size g)); [contradiction|].
  eexists. split; [reflexivity|]. simpl.
  split; [apply lookup_insert_eq|].
  split; [unfold CheckNode; simpl; rewrite lookup_insert_eq;
          apply bool_decide_eq_true_2; eauto|].
  split; [unfold len_VertexIds; simpl;
          rewrite map_size_insert_None by assumption; lia|].
  split; [intros v Hv; apply lookup_insert_ne; congruence|].
  unfold same_slots. auto.
Qed.

Lemma AddNode_new_witness :
  exists g g',
    build 2 [CallAddNode 8]%N = Some g /\
    VertexIds g !! 9%N = None /\ Order g <> size g /\
    AddNode 9%N g = (Ok tt, g') /\
    VertexIds g' !! 9%N = Some 1 /\ Order g' = 2.
Proof.
  assert (Hnew : VertexIds (mkMixedMatrix [CT_NONE] 2 (<[8%N := 0]> ∅) 0 0) !! 9%N = None)
    by reflexivity.
  assert (Hroom : Order (mkMixedMatrix [CT_NONE] 2 (<[8%N := 0]> ∅) 0 0)
                  <> size (mkMixedMatrix [CT_NONE] 2 (<[8%N := 0]> ∅) 0 0))
    by (vm_compute; discriminate).
  destruct (AddNode_new _ _ Hnew Hroom) as (g' & Hadd & Hidx & _ & Hord & _).
  exists (mkMixedMatrix [CT_NONE] 2 (<[8%N := 0]> ∅) 0 0), g'.
  split; [vm_compute; reflexivity|].
  split; [exact Hnew|]. split; [exact Hroom|].
  split; [exact Hadd|]. split; [exact Hidx | exact Hord].
Defined.

(** X2. [AddNode] of an id that is mapped panics with "Node already
    exists."; [AddNode] of an unmapped id into a full store panics with "Not
    enough space to add new node"; the store is as it was in both cases. In
    particular the second of two [AddNode] of one id panics. *)
Theorem AddNode_refused (node : VertexId) (g : MixedMatrix) :
  is_Some (VertexIds g !! node) \/ Order g = size g ->
  AddNode node g =
    (Panic (NewSequent "Add node to graph."
              (if CheckNode g node then NewError "Node already exists."
               else NewError "Not enough space to add new node")), g).
Proof.
  intros Hwhy. rewrite AddNode_unfold. unfold CheckNode, Order in *.
  destruct (VertexIds g !! node) as [i|] eqn:Hnode.
  - rewrite bool_decide_eq_true_2 by eauto. reflexivity.
  - rewrite bool_decide_eq_false_2 by (intros [? ?]; discriminate).
    destruct Hwhy as [[? ?]|Hfull]; [discriminate|].
    rewrite Hfull, Z.eqb_refl. reflexivity.
Qed.

Lemma AddNode_refused_witness :
  exists g,
    build 1 [CallAddNode 8]%N = Some g /\
    AddNode 8%N g
      = (Panic (NewSequent "Add node to graph." (NewError "Node already exists.")), g) /\
    AddNode 9%N g
      = (Panic (NewSequent "Add node to graph."
                  (NewError "Not enough space to add new node")), g).
Proof.
  eexists. split; [vm_compute; reflexivity|].
  split.
  - exact (AddNode_refused 8%N (mkMixedMatrix [] 1 (<[8%N := 0]> ∅) 0 0)
             ltac:(left; eexists; reflexivity)).
  - exact (AddNode_refused 9%N (mkMixedMatrix [] 1 (<[8%N := 0]> ∅) 0 0)
             ltac:(right; reflexivity)).
Defined.

(* ------------------------------------------------------------------------- *)
(** ** The operations on a slot that is known *)

Lemma getConnectionId_any node1 node2 g conn :
  getConnectionId node1 node2 false g = (Ok conn, g) ->
  node1 <> node2 /\
  forall create,
    getConnectionId node1 node2 create g = (Ok conn, g) /\
    getConnectionId node2 node1 create g = (Ok conn, g).
Proof.
  rewrite getConnectionId_query. case_bool_decide as Hne; [discriminate|].
  destruct (VertexIds g !! node1) as [i1|] eqn:H1; [|discriminate].
  destruct (VertexIds g !! node2) as [i2|] eqn:H2; [|discriminate].
  intros [= <-]. split; [assumption|]. intros create. split.
  - apply getConnectionId_mapped; assumption.
  - rewrite ordered_connId_sym. apply getConnectionId_mapped; congruence.
Qed.

Lemma same_slots_eq g g' : same_slots g g' -> g' = set_VertexIds g (VertexIds g').
Proof.
  destruct g, g'. unfold same_slots, set_VertexIds. simpl.
  intros (-> & -> & -> & ->). reflexivity.
Qed.

Lemma updated_updated g conn t t' edges arcs edges' arcs' :
  updated (updated g conn t edges arcs) conn t' edges' arcs'
    = updated g conn t' edges' arcs'.
Proof. unfold updated. simpl. rewrite list_insert_insert_eq. reflexivity. Qed.

Lemma updated_id g conn t :
  index (nodes g) conn = Ok t -> updated g conn t (edgesCnt g) (arcsCnt g) = g.
Proof.
  intros [_ Hl]%index_Ok. unfold updated. rewrite list_insert_id by assumption.
  destruct g. reflexivity.
Qed.

(** [x++] then [x--], and [x--] then [x++], give [x] back, wrap-around or
    not. *)
Lemma incr_decr x : GoInt.in_range x -> GoInt.sub (GoInt.add x 1) 1 = x.
Proof.
  unfold GoInt.in_range, GoInt.min_int, GoInt.max_int, GoInt.sub, GoInt.add, GoInt.wrap.
  intros Hx. Z.to_euclidean_division_equations. lia.
Qed.

Lemma decr_incr x : GoInt.in_range x -> GoInt.add (GoInt.sub x 1) 1 = x.
Proof.
  unfold GoInt.in_range, GoInt.min_int, GoInt.max_int, GoInt.sub, GoInt.add, GoInt.wrap.
  intros Hx. Z.to_euclidean_division_equations. lia.
Qed.

(** What each operation does on a pair whose slot is [conn] and holds [t]. *)
Section Slot.

Variables (u v : VertexId) (g : MixedMatrix) (conn : Z) (t : MixedConnectionType).
Hypothesis Hslot : getConnectionId u v false g = (Ok conn, g).
Hypothesis Hread : index (nodes g) conn = Ok t.

Lemma CheckEdge_slot : CheckEdge u v g = (Ok (bool_decide (t = CT_UNDIRECTED)), g).
Proof.
  destruct (getConnectionId_any _ _ _ _ Hslot) as [Hne _].
  unfold CheckEdge, deferred, bind, read_node, ret.
  rewrite bool_decide_eq_false_2 by assumption. rewrite Hslot, Hread. reflexivity.
Qed.

Lemma CheckArc_slot : CheckArc u v g = (Ok (bool_decide (t = arcType u v)), g).
Proof.
  unfold CheckArc, deferred, bind, read_node, ret. rewrite Hslot, Hread. reflexivity.
Qed.

Lemma CheckEdgeType_slot :
  CheckEdgeType u v g
    = (Ok (if bool_decide (t = CT_DIRECTED) && (v <? u)%N
           then CT_DIRECTED_REVERSED else t), g).
Proof.
  unfold CheckEdgeType, deferred, bind, read_node, ret. rewrite Hslot, Hread.
  destruct (bool_decide (t = CT_DIRECTED) && (v <? u)%N); reflexivity.
Qed.

Lemma AddEdge_slot :
  AddEdge u v g =
    if bool_decide (t <> CT_NONE) then (Panic (duplicate "Add edge to mixed graph."), g)
    else (Ok tt, updated g conn CT_UNDIRECTED (GoInt.add (edgesCnt g) 1) (arcsCnt g)).
Proof.
  destruct (getConnectionId_any _ _ _ _ Hslot) as [_ Hany].
  unfold AddEdge, deferred, bind, read_node, write_node, edgesCnt_incr, panic.
  rewrite (proj1 (Hany true)), Hread.
  case_bool_decide; [reflexivity|].
  rewrite (store_Ok _ _ _ _ Hread). reflexivity.
Qed.

Lemma AddArc_slot :
  AddArc u v g =
    if bool_decide (t <> CT_NONE) then (Panic (duplicate "Add arc to mixed graph."), g)
    else (Ok tt, updated g conn (arcType u v) (edgesCnt g) (GoInt.add (arcsCnt g) 1)).
Proof.
  destruct (getConnectionId_any _ _ _ _ Hslot) as [_ Hany].
  unfold AddArc, deferred, bind, read_node, write_node, arcsCnt_incr, panic, arcType.
  rewrite (proj1 (Hany true)), Hread.
  case_bool_decide; [reflexivity|].
  destruct (u <? v)%N; rewrite (store_Ok _ _ _ _ Hread); reflexivity.
Qed.

Lemma RemoveEdge_slot :
  RemoveEdge u v g =
    if bool_decide (t <> CT_UNDIRECTED) then
      (Panic (NewSequent "Remove edge from mixed graph."
                (NewError "Edge doesn't exists.")), g)
    else (Ok tt, updated g conn CT_NONE (GoInt.sub (edgesCnt g) 1) (arcsCnt g)).
Proof.
  destruct (getConnectionId_any _ _ _ _ Hslot) as [_ Hany].
  unfold RemoveEdge, deferred, bind, read_node, write_node, edgesCnt_decr, panic.
  rewrite (proj1 (Hany true)), Hread.
  case_bool_decide; [reflexivity|].
  rewrite (store_Ok _ _ _ _ Hread). reflexivity.
Qed.

Lemma RemoveArc_slot :
  RemoveArc u v g =
    if bool_decide (t <> arcType u v) then
      (Panic (NewSequent "Remove arc from mixed graph."
                (NewError "Arc doesn't exists.")), g)
    else (Ok tt, updated g conn CT_NONE (edgesCnt g) (GoInt.sub (arcsCnt g) 1)).
Proof.
  destruct (getConnectionId_any _ _ _ _ Hslot) as [_ Hany].
  unfold RemoveArc, deferred, bind, read_node, write_node, arcsCnt_decr, panic.
  rewrite (proj1 (Hany true)), Hread.
  case_bool_decide; [reflexivity|].
  rewrite (store_Ok _ _ _ _ Hread). reflexivity.
Qed.

End Slot.

(* ------------------------------------------------------------------------- *)
(** ** Edges and arcs: what a successful write leaves *)

Lemma AddEdge_ok u v g g' :
  AddEdge u v g = (Ok tt, g') ->
  exists conn g1,
    same_slots g g1 /\
    index (nodes g1) conn = Ok CT_NONE /\
    g' = updated g1 conn CT_UNDIRECTED (GoInt.add (edgesCnt g1) 1) (arcsCnt g1) /\
    getConnectionId u v false g' = (Ok conn, g') /\
    getConnectionId v u false g' = (Ok conn, g') /\
    index (nodes g') conn = Ok CT_UNDIRECTED.
Proof.
  intros Hadd. apply AddEdge_inv in Hadd.
  destruct Hadd as (conn & g1 & Hconn & Hread & ->).
  apply getConnectionId_create in Hconn.
  destruct Hconn as (Hsame & Hne & Hfwd & Hbwd).
  exists conn, g1. split; [assumption|]. split; [assumption|]. split; [reflexivity|].
  split; [apply getConnectionId_query_updated; assumption|].
  split; [apply getConnectionId_query_updated; assumption|].
  simpl. eapply index_store_eq. eassumption.
Qed.

Lemma AddArc_ok tail head g g' :
  AddArc tail head g = (Ok tt, g') ->
  exists conn g1,
    same_slots g g1 /\
    index (nodes g1) conn = Ok CT_NONE /\
    g' = updated g1 conn (arcType tail head) (edgesCnt g1) (GoInt.add (arcsCnt g1) 1) /\
    getConnectionId tail head false g' = (Ok conn, g') /\
    getConnectionId head tail false g' = (Ok conn, g') /\
    index (nodes g') conn = Ok (arcType tail head).
Proof.
  intros Hadd. apply AddArc_inv in Hadd.
  destruct Hadd as (conn & g1 & Hconn & Hread & ->).
  apply getConnectionId_create in Hconn.
  destruct Hconn as (Hsame & Hne & Hfwd & Hbwd).
  exists conn, g1. split; [assumption|]. split; [assumption|]. split; [reflexivity|].
  split; [apply getConnectionId_query_updated; assumption|].
  split; [apply getConnectionId_query_updated; assumption|].
  simpl. eapply index_store_eq. eassumption.
Qed.

Lemma arcType_not_edge tail head :
  arcType tail head <> CT_UNDIRECTED /\ arcType tail head <> CT_NONE.
Proof. unfold arcType. destruct (tail <? head)%N; split; discriminate. Qed.

(** X3. After a successful [AddEdge(u, v)] the edge is seen from both
    ends: [CheckEdge] returns true and [CheckEdgeType] returns
    [CT_UNDIRECTED] for [(u, v)] and for [(v, u)], and [CheckArc] returns
    false for both. None of the queries changes the store. *)
Theorem AddEdge_queries (u v : VertexId) (g g' : MixedMatrix) :
  AddEdge u v g = (Ok tt, g') ->
  CheckEdge u v g' = (Ok true, g') /\ CheckEdge v u g' = (Ok true, g') /\
  CheckEdgeType u v g' = (Ok CT_UNDIRECTED, g') /\
  CheckEdgeType v u g' = (Ok CT_UNDIRECTED, g') /\
  CheckArc u v g' = (Ok false, g') /\ CheckArc v u g' = (Ok false, g').
Proof.
  intros (conn & g1 & _ & _ & _ & Hfwd & Hbwd & Hread)%AddEdge_ok.
  rewrite (CheckEdge_slot _ _ _ _ _ Hfwd Hread), (CheckEdge_slot _ _ _ _ _ Hbwd Hread).
  rewrite (CheckEdgeType_slot _ _ _ _ _ Hfwd Hread), (CheckEdgeType_slot _ _ _ _ _ Hbwd Hread).
  rewrite (CheckArc_slot _ _ _ _ _ Hfwd Hread), (CheckArc_slot _ _ _ _ _ Hbwd Hread).
  rewrite !(bool_decide_eq_false_2 (CT_UNDIRECTED = arcType _ _))
    by (intros Heq; symmetry in Heq; revert Heq; apply arcType_not_edge).
  repeat split; reflexivity.
Qed.

Lemma AddEdge_queries_witness :
  exists g g',
    build 4 [CallAddNode 6; CallAddNode 2]%N = Some g /\
    AddEdge 6%N 2%N g = (Ok tt, g') /\
    CheckEdge 6%N 2%N g' = (Ok true, g') /\ CheckEdge 2%N 6%N g' = (Ok true, g') /\
    CheckEdgeType 6%N 2%N g' = (Ok CT_UNDIRECTED, g') /\
    CheckEdgeType 2%N 6%N g' = (Ok CT_UNDIRECTED, g') /\
    CheckArc 6%N 2%N g' = (Ok false, g') /\ CheckArc 2%N 6%N g' = (Ok false, g').
Proof.
  eexists. eexists. split; [vm_compute; reflexivity|].
  match goal with |- ?A /\ _ => assert (Hadd : A) by (vm_compute; reflexivity) end.
  split; [exact Hadd|]. exact (AddEdge_queries _ _ _ _ Hadd).
Defined.

(** X4. [AddEdge(u, v)] followed by [RemoveEdge], with the ids in either
    order, gives back the slots and the counters of the store before the
    [AddEdge]: only the vertices the [AddEdge] created are left. *)
Theorem AddEdge_RemoveEdge (u v : VertexId) (g g' : MixedMatrix) :
  GoInt.in_range (edgesCnt g) ->
  AddEdge u v g = (Ok tt, g') ->
  RemoveEdge u v g' = (Ok tt, set_VertexIds g (VertexIds g')) /\
  RemoveEdge v u g' = (Ok tt, set_VertexIds g (VertexIds g')).
Proof.
  intros Hrange (conn & g1 & Hsame & Hnone & Hg' & Hfwd & Hbwd & Hread)%AddEdge_ok.
  rewrite (RemoveEdge_slot _ _ _ _ _ Hfwd Hread), (RemoveEdge_slot _ _ _ _ _ Hbwd Hread).
  rewrite bool_decide_eq_false_2 by (intros Hne; apply Hne; reflexivity).
  assert (Hback : updated g' conn CT_NONE (GoInt.sub (edgesCnt g') 1) (arcsCnt g')
                  = set_VertexIds g (VertexIds g')).
  { rewrite Hg'. simpl edgesCnt. simpl arcsCnt. simpl VertexIds.
    rewrite updated_updated.
    destruct Hsame as (Hn & Hs & He & Ha).
    rewrite incr_decr by (rewrite He; assumption).
    rewrite (updated_id _ _ _ Hnone).
    apply same_slots_eq. unfold same_slots. auto. }
  rewrite Hback. split; reflexivity.
Qed.

Lemma AddEdge_RemoveEdge_witness :
  exists g g',
    build 4 [CallAddNode 6; CallAddArc 6 1]%N = Some g /\
    GoInt.in_range (edgesCnt g) /\
    AddEdge 6%N 2%N g = (Ok tt, g') /\
    RemoveEdge 6%N 2%N g' = (Ok tt, set_VertexIds g (VertexIds g')) /\
    RemoveEdge 2%N 6%N g' = (Ok tt, set_VertexIds g (VertexIds g')) /\
    Order g = 2 /\ Order g' = 3.
Proof.
  eexists. eexists. split; [vm_compute; reflexivity|].
  match goal with |- ?A /\ _ => assert (Hrange : A) by (vm_compute; split; discriminate) end.
  split; [exact Hrange|].
  match goal with |- ?A /\ _ => assert (Hadd : A) by (vm_compute; reflexivity) end.
  split; [exact Hadd|].
  destruct (AddEdge_RemoveEdge _ _ _ _ Hrange Hadd) as [Hfwd Hbwd].
  split; [exact Hfwd|]. split; [exact Hbwd|]. split; reflexivity.
Defined.

(** X5. [AddArc(tail, head)] followed by [RemoveArc(tail, head)] gives back
    the slots and the counters of the store before the [AddArc]; only the
    vertices the [AddArc] created are left. *)
Theorem AddArc_RemoveArc (tail head : VertexId) (g g' : MixedMatrix) :
  GoInt.in_range (arcsCnt g) ->
  AddArc tail head g = (Ok tt, g') ->
  RemoveArc tail head g' = (Ok tt, set_VertexIds g (VertexIds g')).
Proof.
  intros Hrange (conn & g1 & Hsame & Hnone & Hg' & Hfwd & Hbwd & Hread)%AddArc_ok.
  rewrite (RemoveArc_slot _ _ _ _ _ Hfwd Hread).
  rewrite bool_decide_eq_false_2 by (intros Hne; apply Hne; reflexivity).
  rewrite Hg'. simpl edgesCnt. simpl arcsCnt. simpl VertexIds.
  rewrite updated_updated.
  destruct Hsame as (Hn & Hs & He & Ha).
  rewrite incr_decr by (rewrite Ha; assumption).
  rewrite (updated_id _ _ _ Hnone).
  f_equal. apply same_slots_eq. unfold same_slots. auto.
Qed.

Lemma AddArc_RemoveArc_witness :
  exists g g',
    build 4 [CallAddNode 6; CallAddEdge 6 1]%N = Some g /\
    GoInt.in_range (arcsCnt g) /\
    AddArc 6%N 2%N g = (Ok tt, g') /\
    RemoveArc 6%N 2%N g' = (Ok tt, set_VertexIds g (VertexIds g')) /\
    Order g = 2 /\ Order g' = 3.
Proof.
  eexists. eexists. split; [vm_compute; reflexivity|].
  match goal with |- ?A /\ _ => assert (Hrange : A) by (vm_compute; split; discriminate) end.
  split; [exact Hrange|].
  match goal with |- ?A /\ _ => assert (Hadd : A) by (vm_compute; reflexivity) end.
  split; [exact Hadd|].
  split; [exact (AddArc_RemoveArc _ _ _ _ Hrange Hadd)|]. split; reflexivity.
Defined.

(** X6. A pair holds one connection at most: after a successful
    [AddEdge(u, v)] or [AddArc(u, v)], every further [AddEdge] or [AddArc]
    on the pair, with the ids in either order, panics with "Duplicate edge."
    and leaves the store as it is. *)
Theorem connected_pair_refuses_add (u v : VertexId) (g g' : MixedMatrix) :
  AddEdge u v g = (Ok tt, g') \/ AddArc u v g = (Ok tt, g') ->
  AddEdge u v g' = (Panic (duplicate "Add edge to mixed graph."), g') /\
  AddEdge v u g' = (Panic (duplicate "Add edge to mixed graph."), g') /\
  AddArc u v g' = (Panic (duplicate "Add arc to mixed graph."), g') /\
  AddArc v u g' = (Panic (duplicate "Add arc to mixed graph."), g').
Proof.
  intros Hadd.
  assert (exists conn t, t <> CT_NONE /\
            getConnectionId u v false g' = (Ok conn, g') /\
            getConnectionId v u false g' = (Ok conn, g') /\
            index (nodes g') conn = Ok t) as (conn & t & Ht & Hfwd & Hbwd & Hread).
  { destruct Hadd as [Hadd | Hadd].
    - apply AddEdge_ok in Hadd.
      destruct Hadd as (conn & g1 & _ & _ & _ & Hfwd & Hbwd & Hread).
      exists conn, CT_UNDIRECTED. split; [discriminate | auto].
    - apply AddArc_ok in Hadd.
      destruct Hadd as (conn & g1 & _ & _ & _ & Hfwd & Hbwd & Hread).
      exists conn, (arcType u v). split; [apply arcType_not_edge | auto]. }
  rewrite (AddEdge_slot _ _ _ _ _ Hfwd Hread), (AddEdge_slot _ _ _ _ _ Hbwd Hread).
  rewrite (AddArc_slot _ _ _ _ _ Hfwd Hread), (AddArc_slot _ _ _ _ _ Hbwd Hread).
  rewrite bool_decide_eq_true_2 by assumption. repeat split; reflexivity.
Qed.

Lemma connected_pair_refuses_add_witness :
  exists g g',
    build 4 [CallAddNode 6; CallAddNode 2]%N = Some g /\
    AddArc 6%N 2%N g = (Ok tt, g') /\
    AddEdge 6%N 2%N g' = (Panic (duplicate "Add edge to mixed graph."), g') /\
    AddEdge 2%N 6%N g' = (Panic (duplicate "Add edge to mixed graph."), g') /\
    AddArc 6%N 2%N g' = (Panic (duplicate "Add arc to mixed graph."), g') /\
    AddArc 2%N 6%N g' = (Panic (duplicate "Add arc to mixed graph."), g').
Proof.
  eexists. eexists. split; [vm_compute; reflexivity|].
  match goal with |- ?A /\ _ => assert (Hadd : A) by (vm_compute; reflexivity) end.
  split; [exact Hadd|]. exact (connected_pair_refuses_add _ _ _ _ (or_intror Hadd)).
Defined.

(** X7. A removal of the wrong kind or in the wrong direction is refused:
    after a successful [AddArc(tail, head)], [RemoveArc(head, tail)] panics
    with "Arc doesn't exists." and [RemoveEdge] on the pair panics with
    "Edge doesn't exists."; the store is as it was, the arc is still there. *)
Theorem arc_refuses_other_removals (tail head : VertexId) (g g' : MixedMatrix) :
  AddArc tail head g = (Ok tt, g') ->
  RemoveArc head tail g'
    = (Panic (NewSequent "Remove arc from mixed graph."
                (NewError "Arc doesn't exists.")), g') /\
  RemoveEdge tail head g'
    = (Panic (NewSequent "Remove edge from mixed graph."
                (NewError "Edge doesn't exists.")), g') /\
  RemoveEdge head tail g'
    = (Panic (NewSequent "Remove edge from mixed graph."
                (NewError "Edge doesn't exists.")), g').
Proof.
  intros (conn & g1 & _ & _ & _ & Hfwd & Hbwd & Hread)%AddArc_ok.
  destruct (getConnectionId_any _ _ _ _ Hfwd) as [Hne _].
  rewrite (RemoveArc_slot _ _ _ _ _ Hbwd Hread).
  rewrite (RemoveEdge_slot _ _ _ _ _ Hfwd Hread), (RemoveEdge_slot _ _ _ _ _ Hbwd Hread).
  rewrite (bool_decide_eq_true_2 (arcType tail head <> arcType head tail))
    by (intros Heq; symmetry in Heq; revert Heq; apply arcType_reversed; assumption).
  rewrite bool_decide_eq_true_2 by apply arcType_not_edge.
  repeat split; reflexivity.
Qed.

Lemma arc_refuses_other_removals_witness :
  exists g g',
    build 4 [CallAddNode 6; CallAddNode 2]%N = Some g /\
    AddArc 6%N 2%N g = (Ok tt, g') /\
    RemoveArc 2%N 6%N g'
      = (Panic (NewSequent "Remove arc from mixed graph."
                  (NewError "Arc doesn't exists.")), g') /\
    RemoveEdge 6%N 2%N g'
      = (Panic (NewSequent "Remove edge from mixed graph."
                  (NewError "Edge doesn't exists.")), g') /\
    RemoveEdge 2%N 6%N g'
      = (Panic (NewSequent "Remove edge from mixed graph."
                  (NewError "Edge doesn't exists.")), g').
Proof.
  eexists. eexists. split; [vm_compute; reflexivity|].
  match goal with |- ?A /\ _ => assert (Hadd : A) by (vm_compute; reflexivity) end.
  split; [exact Hadd|]. exact (arc_refuses_other_removals _ _ _ _ Hadd).
Defined.

(** X8. After a successful [AddEdge(u, v)], [RemoveArc] on the pair, with
    the ids in either order, panics with "Arc doesn't exists." and leaves the
    store as it is. *)
Theorem edge_refuses_RemoveArc (u v : VertexId) (g g' : MixedMatrix) :
  AddEdge u v g = (Ok tt, g') ->
  RemoveArc u v g'
    = (Panic (NewSequent "Remove arc from mixed graph."
                (NewError "Arc doesn't exists.")), g') /\
  RemoveArc v u g'
    = (Panic (NewSequent "Remove arc from mixed graph."
                (NewError "Arc doesn't exists.")), g').
Proof.
  intros (conn & g1 & _ & _ & _ & Hfwd & Hbwd & Hread)%AddEdge_ok.
  rewrite (RemoveArc_slot _ _ _ _ _ Hfwd Hread), (RemoveArc_slot _ _ _ _ _ Hbwd Hread).
  rewrite !bool_decide_eq_true_2
    by (intros Heq; symmetry in Heq; revert Heq; apply arcType_not_edge).
  split; reflexivity.
Qed.

Lemma edge_refuses_RemoveArc_witness :
  exists g g',
    build 4 [CallAddNode 6; CallAddNode 2]%N = Some g /\
    AddEdge 6%N 2%N g = (Ok tt, g') /\
    RemoveArc 6%N 2%N g'
      = (Panic (NewSequent "Remove arc from mixed graph."
                  (NewError "Arc doesn't exists.")), g') /\
    RemoveArc 2%N 6%N g'
      = (Panic (NewSequent "Remove arc from mixed graph."
                  (NewError "Arc doesn't exists.")), g').
Proof.
  eexists. eexists. split; [vm_compute; reflexivity|].
  match goal with |- ?A /\ _ => assert (Hadd : A) by (vm_compute; reflexivity) end.
  split; [exact Hadd|]. exact (edge_refuses_RemoveArc _ _ _ _ Hadd).
Defined.

(* ------------------------------------------------------------------------- *)
(** ** The vertex map over the life of a store *)

Lemma map_add_lookup node m v i : m !! v = Some i -> map_add node m !! v = Some i.
Proof.
  intros Hv. unfold map_add, VertexId in *.
  destruct (m !! node) eqn:Hnode; [assumption|].
  rewrite lookup_insert_ne by (intros ->; congruence). assumption.
Qed.

Lemma map_add_ok node m : vertex_map_ok m -> vertex_map_ok (map_add node m).
Proof.
  intros (Hbound & Hinj & Hsurj). unfold map_add, VertexId in *.
  destruct (m !! node) eqn:Hnode; [exact (conj Hbound (conj Hinj Hsurj))|].
  assert (Hsize : stdpp.base.size (<[node := Z.of_nat (stdpp.base.size m)]> m)
                  = S (stdpp.base.size m)) by (apply map_size_insert_None; assumption).
  split; [|split].
  - intros v i. rewrite Hsize. destruct (decide (node = v)) as [->|Hne].
    + rewrite lookup_insert_eq. intros [= <-]. lia.
    + rewrite lookup_insert_ne by assumption. intros Hv%Hbound. lia.
  - intros u v i Hu Hv.
    destruct (decide (u = node)) as [Hun|Hun], (decide (v = node)) as [Hvn|Hvn].
    + congruence.
    + subst u. rewrite lookup_insert_eq in Hu. injection Hu as <-.
      rewrite lookup_insert_ne in Hv by congruence. apply Hbound in Hv. lia.
    + subst v. rewrite lookup_insert_eq in Hv. injection Hv as <-.
      rewrite lookup_insert_ne in Hu by congruence. apply Hbound in Hu. lia.
    + rewrite lookup_insert_ne in Hu by congruence.
      rewrite lookup_insert_ne in Hv by congruence. eapply Hinj; eassumption.
  - intros i. rewrite Hsize. intros Hi.
    destruct (decide (i = Z.of_nat (stdpp.base.size m))) as [->|Hold].
    + exists node. apply lookup_insert_eq.
    + destruct (Hsurj i ltac:(lia)) as [v Hv]. exists v.
      rewrite lookup_insert_ne by (intros ->; congruence). assumption.
Qed.

(** The vertex map after [getConnectionId]: untouched, or with the two ids
    added, the first before the second. *)
Lemma getConnectionId_VertexIds node1 node2 create g :
  VertexIds (snd (getConnectionId node1 node2 create g)) = VertexIds g \/
  VertexIds (snd (getConnectionId node1 node2 create g))
    = map_add node2 (map_add node1 (VertexIds g)).
Proof.
  destruct create; [|left; rewrite getConnectionId_query; reflexivity].
  unfold getConnectionId, deferred, bind, get, lookup_id, new_id, ret, panic, map_add.
  destruct (VertexIds g !! node1) as [i1|] eqn:H1,
           (VertexIds g !! node2) as [i2|] eqn:H2; simpl;
    case_bool_decide as Hne; simpl; try (left; reflexivity).
  - destruct (i1 >? i2); left; reflexivity.
  - destruct (_ <? 1); simpl; [left; reflexivity|].
    right. unfold len_VertexIds.
    destruct (i1 >? _); reflexivity.
  - destruct (_ <? 1); simpl; [left; reflexivity|].
    right. rewrite lookup_insert_ne, H2 by congruence. unfold len_VertexIds.
    destruct (_ >? i2); reflexivity.
  - destruct (_ <? 1); simpl; [left; reflexivity|].
    right. rewrite lookup_insert_ne, H2 by congruence. unfold len_VertexIds. simpl.
    destruct (_ >? _); reflexivity.
Qed.

(** A writer changes the vertex map as its call of [getConnectionId] does,
    and never the capacity or the number of slots. *)
Lemma writer_shape (op : VertexId -> VertexId -> M unit) node1 node2 g :
  op = AddEdge \/ op = RemoveEdge \/ op = AddArc \/ op = RemoveArc ->
  VertexIds (snd (op node1 node2 g))
    = VertexIds (snd (getConnectionId node1 node2 true g)) /\
  size (snd (op node1 node2 g)) = size g /\
  length (nodes (snd (op node1 node2 g))) = length (nodes g).
Proof.
  intros Hop.
  destruct (getConnectionId node1 node2 true g) as [r1 g1] eqn:Hconn.
  pose proof (getConnectionId_create _ _ _ _ _ Hconn) as [(Hn & Hs & _) _].
  assert (Hcases : exists r, op node1 node2 g = (r, g1) \/
            exists conn t e a, op node1 node2 g = (r, updated g1 conn t e a)).
  { destruct Hop as [-> | [-> | [-> | ->]]];
      unfold AddEdge, RemoveEdge, AddArc, RemoveArc, deferred, bind;
      rewrite Hconn; destruct r1 as [conn|e]; try (eexists; left; reflexivity);
      unfold read_node, write_node, panic, edgesCnt_incr, edgesCnt_decr,
        arcsCnt_incr, arcsCnt_decr;
      destruct (index (nodes g1) conn) as [t|e] eqn:Hread;
      try (eexists; left; reflexivity);
      case_bool_decide; try (eexists; left; reflexivity);
      try destruct (node1 <? node2)%N;
      rewrite (store_Ok _ _ _ _ Hread); eexists; right; do 4 eexists; reflexivity. }
  destruct Hcases as [r [-> | (conn & t & e & a & ->)]]; simpl.
  - auto using f_equal.
  - rewrite length_insert. auto using f_equal.
Qed.

(** Over one call, the vertex map grows by at most two ids, and the
    capacity and the number of slots stay. *)
Lemma exec_shape c g :
  (exists ns, VertexIds (exec c g) = foldr map_add (VertexIds g) ns) /\
  size (exec c g) = size g /\
  length (nodes (exec c g)) = length (nodes g).
Proof.
  assert (Hwriter : forall op n1 n2,
            op = AddEdge \/ op = RemoveEdge \/ op = AddArc \/ op = RemoveArc ->
            (exists ns, VertexIds (snd (op n1 n2 g)) = foldr map_add (VertexIds g) ns) /\
            size (snd (op n1 n2 g)) = size g /\
            length (nodes (snd (op n1 n2 g))) = length (nodes g)).
  { intros op n1 n2 Hop.
    destruct (writer_shape op n1 n2 g Hop) as (-> & -> & ->).
    split; [|auto].
    destruct (getConnectionId_VertexIds n1 n2 true g) as [-> | ->];
      [exists [] | exists [n2; n1]]; reflexivity. }
  destruct c as [node|node|n1 n2|n1 n2|n1 n2|n1 n2|n1 n2|n1 n2|n1 n2]; simpl;
    rewrite ?CheckEdge_store, ?CheckArc_store, ?CheckEdgeType_store;
    try (split; [exists []; reflexivity | auto]; fail);
    try (apply Hwriter; auto; fail).
  rewrite AddNode_unfold.
  destruct (VertexIds g !! node) eqn:Hnode; [split; [exists []; reflexivity | auto]|].
  destruct (len_VertexIds g =? size g); simpl; [split; [exists []; reflexivity | auto]|].
  split; [|auto]. exists [node]. simpl. unfold map_add. rewrite Hnode. reflexivity.
Qed.

Lemma exec_keeps_vertex c g v i :
  VertexIds g !! v = Some i -> VertexIds (exec c g) !! v = Some i.
Proof.
  intros Hv. destruct (exec_shape c g) as ([ns ->] & _).
  induction ns as [|n ns IHns]; simpl; [assumption|].
  apply map_add_lookup. assumption.
Qed.

(** X9. A vertex is for the life of the store: whatever calls follow,
    returning or panicking, a mapped id stays mapped to the same internal
    index, and the capacity and the number of slots never change. *)
Theorem vertices_persist (g : MixedMatrix) (v : VertexId) (i : Z) (cs : list call) :
  VertexIds g !! v = Some i ->
  VertexIds (fold_left (fun g c => exec c g) cs g) !! v = Some i /\
  size (fold_left (fun g c => exec c g) cs g) = size g /\
  length (nodes (fold_left (fun g c => exec c g) cs g)) = length (nodes g).
Proof.
  revert g. induction cs as [|c cs IH]; intros g Hv; simpl; [auto|].
  destruct (exec_shape c g) as (_ & Hsize & Hlen).
  destruct (IH _ (exec_keeps_vertex c g v i Hv)) as (? & -> & ->). auto.
Qed.

Lemma vertices_persist_witness :
  exists g,
    build 3 [CallAddNode 7]%N = Some g /\
    VertexIds g !! 7%N = Some 0 /\
    VertexIds (fold_left (fun g c => exec c g)
                 [CallAddEdge 9 7; CallRemoveEdge 7 9; CallAddArc 4 5; CallAddNode 7]%N g)
      !! 7%N = Some 0 /\
    size (fold_left (fun g c => exec c g)
            [CallAddEdge 9 7; CallRemoveEdge 7 9; CallAddArc 4 5; CallAddNode 7]%N g) = 3.
Proof.
  eexists. split; [vm_compute; reflexivity|].
  match goal with |- ?A /\ _ => assert (Hv : A) by reflexivity end.
  split; [exact Hv|].
  destruct (vertices_persist _ _ _
              [CallAddEdge 9 7; CallRemoveEdge 7 9; CallAddArc 4 5; CallAddNode 7]%N Hv)
    as (Hkeep & Hsize & _).
  split; [exact Hkeep | exact Hsize].
Defined.

Lemma reachable_vertex_map_ok g : reachable g -> vertex_map_ok (VertexIds g).
Proof.
  induction 1 as [size g Hnew | c g _ IH].
  - unfold NewMixedMatrix in Hnew. destruct (size <=? 0); [discriminate|].
    destruct (_ <? 0); [discriminate|]. injection Hnew as <-. simpl.
    split; [|split].
    + intros v i. rewrite lookup_empty. discriminate.
    + intros u v i. rewrite lookup_empty. discriminate.
    + intros i. rewrite map_size_empty. lia.
  - destruct (exec_shape c g) as ([ns ->] & _).
    induction ns as [|n ns IHns]; simpl; [assumption|].
    apply map_add_ok. assumption.
Qed.

(** X10. In every store reached from a new one, the vertex map numbers
    the vertices in the order they came: each internal index lies in
    [[0, Order())], no two ids share an index, and every number below
    [Order()] is the index of an id. *)
Theorem vertex_numbering (g : MixedMatrix) :
  reachable g ->
  (forall v i, VertexIds g !! v = Some i -> 0 <= i < Order g) /\
  (forall u v i, VertexIds g !! u = Some i -> VertexIds g !! v = Some i -> u = v) /\
  (forall i, 0 <= i < Order g -> exists v, VertexIds g !! v = Some i).
Proof. intros Hreach. exact (reachable_vertex_map_ok g Hreach). Qed.

Lemma vertex_numbering_witness :
  exists g,
    build 3 [CallAddEdge 9 7; CallAddNode 7; CallAddArc 4 7]%N = Some g /\
    Order g = 3 /\
    VertexIds g !! 9%N = Some 0 /\ VertexIds g !! 7%N = Some 1 /\
    VertexIds g !! 4%N = Some 2 /\ VertexIds g !! 5%N = None /\
    (forall v i, VertexIds g !! v = Some i -> 0 <= i < Order g) /\
    (forall u v i, VertexIds g !! u = Some i -> VertexIds g !! v = Some i -> u = v) /\
    (forall i, 0 <= i < Order g -> exists v, VertexIds g !! v = Some i).
Proof.
  eexists. split; [vm_compute; reflexivity|].
  split; [reflexivity|]. split; [reflexivity|]. split; [reflexivity|].
  split; [reflexivity|]. split; [reflexivity|].
  apply vertex_numbering.
  apply (build_reachable 3 [CallAddEdge 9 7; CallAddNode 7; CallAddArc 4 7]%N).
  vm_compute. reflexivity.
Defined.

(* ------------------------------------------------------------------------- *)
(** ** Stores within their capacity *)

Lemma reachable_new_shape g :
  reachable g ->
  exists g0, NewMixedMatrix (size g) = Ok g0 /\ length (nodes g) = length (nodes g0).
Proof.
  induction 1 as [size0 g Hnew | c g _ (g0 & Hnew & Hlen)].
  - exists g. split; [|reflexivity].
    assert (size g = size0) as ->; [|assumption].
    unfold NewMixedMatrix in Hnew. destruct (size0 <=? 0); [discriminate|].
    destruct (_ <? 0); [discriminate|]. injection Hnew as <-. reflexivity.
  - destruct (exec_shape c g) as (_ & -> & ->). eauto.
Qed.

Lemma within_capacity_length g :
  within_capacity g ->
  0 < size g /\ Z.of_nat (length (nodes g)) = size g * (size g - 1) / 2.
Proof.
  intros (Hreach & _ & Hfit).
  destruct (reachable_new_shape g Hreach) as (g0 & Hnew & ->).
  assert (Hpos : 0 < size g).
  { unfold NewMixedMatrix in Hnew. destruct (Z.leb_spec (size g) 0); [discriminate | lia]. }
  split; [assumption|].
  rewrite NewMixedMatrix_exact in Hnew by assumption. injection Hnew as <-.
  simpl. rewrite length_replicate.
  pose proof (capacity_half (size g)). nia.
Qed.

(** Within capacity, two distinct mapped ids have a slot inside the slice:
    the formula at the smaller and the larger of their indices. *)
Lemma slot_within g u v i j :
  within_capacity g -> u <> v ->
  VertexIds g !! u = Some i -> VertexIds g !! v = Some j ->
  valid_pair (size g) (Z.min i j) (Z.max i j) /\
  ordered_connId (size g) i j = slot_formula (size g) (Z.min i j) (Z.max i j) /\
  0 <= ordered_connId (size g) i j < Z.of_nat (length (nodes g)).
Proof.
  intros Hwithin Hne Hu Hv.
  destruct (within_capacity_length g Hwithin) as [Hpos Hlen].
  destruct Hwithin as (Hreach & Hroom & Hfit).
  destruct (reachable_vertex_map_ok g Hreach) as (Hbound & Hinj & _).
  pose proof (Hbound _ _ Hu) as Hi. pose proof (Hbound _ _ Hv) as Hj.
  fold (len_VertexIds g) in Hi, Hj. unfold Order in Hroom.
  assert (i <> j) by (intros ->; apply Hne; eapply Hinj; eassumption).
  assert (Hvalid : valid_pair (size g) (Z.min i j) (Z.max i j))
    by (unfold valid_pair; lia).
  assert (Hexact : ordered_connId (size g) i j
                   = slot_formula (size g) (Z.min i j) (Z.max i j)).
  { unfold ordered_connId. rewrite Z.gtb_ltb.
    destruct (Z.ltb_spec j i).
    - rewrite Z.min_r, Z.max_l by lia. apply connId_exact; [assumption|].
      unfold valid_pair; lia.
    - rewrite Z.min_l, Z.max_r by lia. apply connId_exact; [assumption|].
      unfold valid_pair; lia. }
  split; [assumption|]. split; [assumption|].
  rewrite Hexact, Hlen. apply slot_formula_range. assumption.
Qed.

Lemma index_in_range {A} (s : list A) (i : Z) :
  0 <= i < Z.of_nat (length s) -> exists a, index s i = Ok a.
Proof.
  intros Hi. destruct (lookup_lt_is_Some_2 s (Z.to_nat i) ltac:(lia)) as [a Ha].
  exists a. apply index_Ok. split; [lia | assumption].
Qed.

(** Within capacity, the slot of two distinct mapped ids can be read. *)
Lemma slot_readable g u v :
  within_capacity g -> u <> v ->
  is_Some (VertexIds g !! u) -> is_Some (VertexIds g !! v) ->
  exists conn t,
    getConnectionId u v false g = (Ok conn, g) /\ index (nodes g) conn = Ok t.
Proof.
  intros Hwithin Hne [i Hu] [j Hv].
  destruct (slot_within g u v i j Hwithin Hne Hu Hv) as (_ & _ & Hrange).
  destruct (index_in_range _ _ Hrange) as [t Ht].
  exists (ordered_connId (size g) i j), t. split; [|assumption].
  apply getConnectionId_mapped; assumption.
Qed.

(** X11. On a store within its capacity the three queries on two distinct
    mapped ids return, none panics: [CheckEdge] is true exactly when
    [CheckEdgeType] is [CT_UNDIRECTED], [CheckArc] is true only when
    [CheckEdgeType] is the directed state the code stores for an arc from
    [u] to [v], and the store is as it was. *)
Theorem queries_return (g : MixedMatrix) (u v : VertexId) :
  within_capacity g -> u <> v ->
  is_Some (VertexIds g !! u) -> is_Some (VertexIds g !! v) ->
  exists t,
    CheckEdgeType u v g = (Ok t, g) /\
    CheckEdge u v g = (Ok (bool_decide (t = CT_UNDIRECTED)), g) /\
    exists arc, CheckArc u v g = (Ok arc, g) /\ (arc = true -> t = arcType u v).
Proof.
  intros Hwithin Hne Hu Hv.
  destruct (slot_readable g u v Hwithin Hne Hu Hv) as (conn & t & Hslot & Hread).
  rewrite (CheckEdgeType_slot _ _ _ _ _ Hslot Hread).
  rewrite (CheckEdge_slot _ _ _ _ _ Hslot Hread).
  rewrite (CheckArc_slot _ _ _ _ _ Hslot Hread).
  eexists. split; [reflexivity|]. split.
  - f_equal. f_equal. destruct t, (v <? u)%N; reflexivity.
  - eexists. split; [reflexivity|].
    intros Harc%bool_decide_eq_true_1. subst t. unfold arcType.
    destruct (N.ltb_spec u v), (N.ltb_spec v u); try reflexivity; lia.
Qed.

Lemma queries_return_witness :
  exists g,
    build 4 [CallAddArc 6 2; CallAddEdge 2 9]%N = Some g /\
    within_capacity g /\ 6%N <> 2%N /\
    is_Some (VertexIds g !! 6%N) /\ is_Some (VertexIds g !! 2%N) /\
    exists t,
      CheckEdgeType 6%N 2%N g = (Ok t, g) /\
      CheckEdge 6%N 2%N g = (Ok (bool_decide (t = CT_UNDIRECTED)), g) /\
      exists arc, CheckArc 6%N 2%N g = (Ok arc, g) /\ (arc = true -> t = arcType 6%N 2%N).
Proof.
  eexists. split; [vm_compute; reflexivity|].
  match goal with |- ?A /\ _ => assert (Hwithin : A) end.
  { split; [|split; vm_compute; discriminate].
    apply (build_reachable 4 [CallAddArc 6 2; CallAddEdge 2 9]%N).
    vm_compute. reflexivity. }
  split; [exact Hwithin|].
  assert (Hne : 6%N <> 2%N) by discriminate. split; [exact Hne|].
  match goal with |- ?A /\ _ => assert (Hu : A) by (eexists; reflexivity) end.
  split; [exact Hu|].
  match goal with |- ?A /\ _ => assert (Hv : A) by (eexists; reflexivity) end.
  split; [exact Hv|].
  exact (queries_return _ _ _ Hwithin Hne Hu Hv).
Defined.

Lemma slots_apart g u v u' v' conn :
  within_capacity g ->
  getConnectionId u v false g = (Ok conn, g) ->
  getConnectionId u' v' false g = (Ok conn, g) ->
  (u = u' /\ v = v') \/ (u = v' /\ v = u').
Proof.
  intros Hwithin. rewrite !getConnectionId_query.
  case_bool_decide as Hne; [discriminate|].
  case_bool_decide as Hne'; [discriminate|].
  destruct (VertexIds g !! u) as [i|] eqn:Hu; [|discriminate].
  destruct (VertexIds g !! v) as [j|] eqn:Hv; [|discriminate].
  destruct (VertexIds g !! u') as [i'|] eqn:Hu'; [|discriminate].
  destruct (VertexIds g !! v') as [j'|] eqn:Hv'; [|discriminate].
  intros [= <-] [= Heq].
  destruct (slot_within g u v i j Hwithin Hne Hu Hv) as (Hvalid & Hexact & _).
  destruct (slot_within g u' v' i' j' Hwithin Hne' Hu' Hv') as (Hvalid' & Hexact' & _).
  rewrite Hexact, Hexact' in Heq.
  destruct (slot_formula_inj _ _ _ _ _ Hvalid' Hvalid Heq) as [Hmin Hmax].
  destruct Hwithin as (Hreach & _).
  destruct (reachable_vertex_map_ok g Hreach) as (_ & Hinj & _).
  assert ((i = i' /\ j = j') \/ (i = j' /\ j = i')) as [[-> ->] | [-> ->]] by lia.
  - left. split; eapply Hinj; eassumption.
  - right. split; eapply Hinj; eassumption.
Qed.

(** X12. Within capacity, every pair of distinct mapped ids has a slot of
    its own inside the slice: the slot the indexing routine returns is an
    index of [nodes], and if it returns the same slot for [(u, v)] and for
    [(u', v')], the two pairs are the same pair, in the same or in the other
    order. *)
Theorem slots_distinct (g : MixedMatrix) (u v u' v' : VertexId) (conn : Z) :
  within_capacity g ->
  getConnectionId u v false g = (Ok conn, g) ->
  getConnectionId u' v' false g = (Ok conn, g) ->
  0 <= conn < Z.of_nat (length (nodes g)) /\
  ((u = u' /\ v = v') \/ (u = v' /\ v = u')).
Proof.
  intros Hwithin Hslot Hslot'. split.
  - revert Hslot. rewrite getConnectionId_query.
    case_bool_decide as Hne; [discriminate|].
    destruct (VertexIds g !! u) as [i|] eqn:Hu; [|discriminate].
    destruct (VertexIds g !! v) as [j|] eqn:Hv; [|discriminate].
    intros [= <-]. apply (slot_within g u v i j Hwithin Hne Hu Hv).
  - eapply slots_apart; eassumption.
Qed.

Lemma slots_distinct_witness :
  exists g,
    build 4 [CallAddNode 6; CallAddNode 2; CallAddNode 9]%N = Some g /\
    within_capacity g /\
    getConnectionId 6%N 9%N false g = (Ok 1, g) /\
    getConnectionId 9%N 6%N false g = (Ok 1, g) /\
    0 <= 1 < Z.of_nat (length (nodes g)) /\
    ((6 = 9 /\ 9 = 6) \/ (6 = 6 /\ 9 = 9))%N.
Proof.
  eexists. split; [vm_compute; reflexivity|].
  match goal with |- ?A /\ _ => assert (Hwithin : A) end.
  { split; [|split; vm_compute; discriminate].
    apply (build_reachable 4 [CallAddNode 6; CallAddNode 2; CallAddNode 9]%N).
    vm_compute. reflexivity. }
  split; [exact Hwithin|].
  match goal with |- ?A /\ _ => assert (Hfwd : A) by (vm_compute; reflexivity) end.
  split; [exact Hfwd|].
  match goal with |- ?A /\ _ => assert (Hbwd : A) by (vm_compute; reflexivity) end.
  split; [exact Hbwd|].
  exact (slots_distinct _ _ _ _ _ _ Hwithin Hfwd Hbwd).
Defined.

Lemma index_insert_ne {A} (s : list A) (i j : Z) (a : A) :
  0 <= i -> 0 <= j -> i <> j -> index (<[Z.to_nat i := a]> s) j = index s j.
Proof.
  intros Hi Hj Hne. unfold index.
  rewrite length_insert, list_lookup_insert_ne by lia. reflexivity.
Qed.

(** A call leaves the slots as they are or overwrites one: a writer, the
    slot of its own pair. *)
Lemma exec_nodes c g :
  nodes (exec c g) = nodes g \/
  exists node1 node2 conn t,
    call_pair c = Some (node1, node2) /\
    getConnectionId node1 node2 false (exec c g) = (Ok conn, exec c g) /\
    0 <= conn /\
    nodes (exec c g) = <[Z.to_nat conn := t]> (nodes g).
Proof.
  assert (Hwrite : forall n1 n2 g1 conn t0 t e a,
            getConnectionId n1 n2 true g = (Ok conn, g1) ->
            index (nodes g1) conn = Ok t0 ->
            exists conn' t',
              getConnectionId n1 n2 false (updated g1 conn t e a)
                = (Ok conn', updated g1 conn t e a) /\
              0 <= conn' /\
              nodes (updated g1 conn t e a) = <[Z.to_nat conn' := t']> (nodes g)).
  { intros n1 n2 g1 conn t0 t e a Hconn Hread.
    apply getConnectionId_create in Hconn. destruct Hconn as ((Hn & _) & _ & Hfwd & _).
    exists conn, t. split; [apply getConnectionId_query_updated; assumption|].
    split; [apply index_Ok in Hread; tauto|]. simpl. rewrite Hn. reflexivity. }
  destruct c as [node|node|n1 n2|n1 n2|n1 n2|n1 n2|n1 n2|n1 n2|n1 n2]; simpl;
    rewrite ?CheckEdge_store, ?CheckArc_store, ?CheckEdgeType_store; auto.
  - left. apply (AddNode_same_slots node g).
  - destruct (AddEdge n1 n2 g) as [[[]|e] g'] eqn:Hrun; apply AddEdge_inv in Hrun;
      [|left; apply Hrun].
    destruct Hrun as (conn & g1 & Hconn & Hread & ->).
    destruct (Hwrite _ _ _ _ _ CT_UNDIRECTED (GoInt.add (edgesCnt g1) 1) (arcsCnt g1)
                Hconn Hread) as (conn' & t' & ? & ? & ?).
    right. exists n1, n2, conn', t'. auto.
  - destruct (RemoveEdge n1 n2 g) as [[[]|e] g'] eqn:Hrun; apply RemoveEdge_inv in Hrun;
      [|left; apply Hrun].
    destruct Hrun as (conn & g1 & Hconn & Hread & ->).
    destruct (Hwrite _ _ _ _ _ CT_NONE (GoInt.sub (edgesCnt g1) 1) (arcsCnt g1)
                Hconn Hread) as (conn' & t' & ? & ? & ?).
    right. exists n1, n2, conn', t'. auto.
  - destruct (AddArc n1 n2 g) as [[[]|e] g'] eqn:Hrun; apply AddArc_inv in Hrun;
      [|left; apply Hrun].
    destruct Hrun as (conn & g1 & Hconn & Hread & ->).
    destruct (Hwrite _ _ _ _ _ (arcType n1 n2) (edgesCnt g1) (GoInt.add (arcsCnt g1) 1)
                Hconn Hread) as (conn' & t' & ? & ? & ?).
    right. exists n1, n2, conn', t'. auto.
  - destruct (RemoveArc n1 n2 g) as [[[]|e] g'] eqn:Hrun; apply RemoveArc_inv in Hrun;
      [|left; apply Hrun].
    destruct Hrun as (conn & g1 & Hconn & Hread & ->).
    destruct (Hwrite _ _ _ _ _ CT_NONE (edgesCnt g1) (GoInt.sub (arcsCnt g1) 1)
                Hconn Hread) as (conn' & t' & ? & ? & ?).
    right. exists n1, n2, conn', t'. auto.
Qed.

(** The slot of a pair of mapped ids, and what it holds, are the same
    before and after a call that is no writer on the pair. *)
Lemma other_slot_kept c g a b :
  within_capacity (exec c g) -> a <> b ->
  is_Some (VertexIds g !! a) -> is_Some (VertexIds g !! b) ->
  other_pair c a b ->
  exists conn t,
    getConnectionId a b false g = (Ok conn, g) /\ index (nodes g) conn = Ok t /\
    getConnectionId a b false (exec c g) = (Ok conn, exec c g) /\
    index (nodes (exec c g)) conn = Ok t.
Proof.
  intros Hwithin Hne [i Ha] [j Hb] [Hfwd Hbwd].
  pose proof (exec_keeps_vertex c g a i Ha) as Ha'.
  pose proof (exec_keeps_vertex c g b j Hb) as Hb'.
  destruct (exec_shape c g) as (_ & Hsize & Hlen).
  destruct (slot_within _ a b i j Hwithin Hne Ha' Hb') as (_ & _ & Hrange).
  rewrite Hsize in Hrange.
  destruct (index_in_range _ _ Hrange) as [t Ht].
  pose proof (getConnectionId_mapped a b false g i j Hne Ha Hb) as Hslot.
  pose proof (getConnectionId_mapped a b false _ i j Hne Ha' Hb') as Hslot'.
  rewrite Hsize in Hslot'.
  exists (ordered_connId (size g) i j).
  destruct (exec_nodes c g) as [Hsame | (n1 & n2 & conn & t' & Hpair & Hconn & Hpos & Hnodes)].
  - exists t. rewrite Hsame in Ht. rewrite Hsame. auto.
  - assert (conn <> ordered_connId (size g) i j) as Hother.
    { intros ->.
      destruct (slots_apart _ _ _ _ _ _ Hwithin Hconn Hslot') as [[-> ->] | [-> ->]];
        congruence. }
    rewrite Hnodes in Ht. rewrite index_insert_ne in Ht by lia.
    exists t. rewrite Hnodes, index_insert_ne by lia. auto.
Qed.

(** X13. A call on one pair leaves every other pair alone: if the store
    after the call is within its capacity, the three queries on two
    distinct ids that were mapped before the call, and that are not the pair
    the call writes, return after the call what they returned before it. *)
Theorem other_pairs_untouched (c : call) (g : MixedMatrix) (a b : VertexId) :
  within_capacity (exec c g) -> a <> b ->
  is_Some (VertexIds g !! a) -> is_Some (VertexIds g !! b) ->
  other_pair c a b ->
  exists t edge arc,
    CheckEdgeType a b g = (Ok t, g) /\
    CheckEdgeType a b (exec c g) = (Ok t, exec c g) /\
    CheckEdge a b g = (Ok edge, g) /\
    CheckEdge a b (exec c g) = (Ok edge, exec c g) /\
    CheckArc a b g = (Ok arc, g) /\
    CheckArc a b (exec c g) = (Ok arc, exec c g).
Proof.
  intros Hwithin Hne Ha Hb Hother.
  destruct (other_slot_kept c g a b Hwithin Hne Ha Hb Hother)
    as (conn & t & Hslot & Hread & Hslot' & Hread').
  rewrite (CheckEdgeType_slot _ _ _ _ _ Hslot Hread), (CheckEdgeType_slot _ _ _ _ _ Hslot' Hread').
  rewrite (CheckEdge_slot _ _ _ _ _ Hslot Hread), (CheckEdge_slot _ _ _ _ _ Hslot' Hread').
  rewrite (CheckArc_slot _ _ _ _ _ Hslot Hread), (CheckArc_slot _ _ _ _ _ Hslot' Hread').
  eauto 10.
Qed.

Lemma other_pairs_untouched_witness :
  exists g,
    build 4 [CallAddArc 6 2; CallAddEdge 2 9]%N = Some g /\
    within_capacity (exec (CallRemoveArc 6 2)%N g) /\
    other_pair (CallRemoveArc 6 2)%N 9%N 2%N /\
    CheckEdge 9%N 2%N g = (Ok true, g) /\
    CheckEdge 9%N 2%N (exec (CallRemoveArc 6 2)%N g)
      = (Ok true, exec (CallRemoveArc 6 2)%N g) /\
    CheckArc 6%N 2%N g = (Ok true, g) /\
    CheckArc 6%N 2%N (exec (CallRemoveArc 6 2)%N g)
      = (Ok false, exec (CallRemoveArc 6 2)%N g).
Proof.
  eexists. split; [vm_compute; reflexivity|].
  match goal with |- ?A /\ _ => assert (Hwithin : A) end.
  { split; [|split; vm_compute; discriminate].
    apply (build_reachable 4 [CallAddArc 6 2; CallAddEdge 2 9; CallRemoveArc 6 2]%N).
    vm_compute. reflexivity. }
  split; [exact Hwithin|].
  assert (Hother : other_pair (CallRemoveArc 6 2)%N 9%N 2%N)
    by (split; discriminate).
  split; [exact Hother|].
  destruct (other_pairs_untouched _ _ 9%N 2%N Hwithin ltac:(discriminate)
              ltac:(eexists; reflexivity) ltac:(eexists; reflexivity) Hother)
    as (t & edge & arc & _ & _ & Hbefore & Hafter & _).
  assert (edge = true) as -> by (vm_compute in Hbefore; congruence).
  split; [exact Hbefore|]. split; [exact Hafter|].
  split; vm_compute; reflexivity.
Defined.

(* ------------------------------------------------------------------------- *)
(** ** The iterators *)

Lemma for_range_sends {X} (keys : list VertexId)
    (body : VertexId -> list X -> M (list X)) (out : VertexId -> list X) g :
  (forall k ch, k ∈ keys -> body k ch g = (Ok (ch ++ out k), g)) ->
  forall ch, for_range keys body ch g = (Ok (ch ++ (keys ≫= out)), g).
Proof.
  induction keys as [|k keys IH]; intros Hbody ch; cbn [for_range].
  - unfold ret. rewrite app_nil_r. reflexivity.
  - unfold bind. rewrite Hbody by left. rewrite IH.
    + rewrite bind_cons, app_assoc. reflexivity.
    + intros k' ch' Hk'. apply Hbody. right. assumption.
Qed.

(** The two nested loops, when each pass sends [sent (from, to)] and
    leaves the store alone. *)
Lemma loops_send {X} (froms : list VertexId) (tos : VertexId -> list VertexId)
    (body : VertexId -> VertexId -> list X -> M (list X))
    (sent : VertexId * VertexId -> list X) g :
  (forall from to ch, from ∈ froms -> to ∈ tos from ->
     body from to ch g = (Ok (ch ++ sent (from, to)), g)) ->
  for_range froms (fun from ch => for_range (tos from) (body from) ch) [] g
    = (Ok (sent_by_loops sent froms tos), g).
Proof.
  intros Hbody.
  rewrite (for_range_sends froms _ (fun from => tos from ≫= (fun to => sent (from, to)))).
  - reflexivity.
  - intros from ch Hfrom. apply for_range_sends.
    intros to ch' Hto. apply Hbody; assumption.
Qed.

Section Loops.

Context {X : Type}.
Variables (sent : VertexId * VertexId -> list X) (ids : X -> VertexId * VertexId).
Hypothesis sent_ids : forall p x, x ∈ sent p -> p = ids x.
Hypothesis sent_once : forall p, NoDup (sent p).

Lemma sent_by_loops_elem froms tos x :
  x ∈ sent_by_loops sent froms tos <->
  exists from to, from ∈ froms /\ to ∈ tos from /\ x ∈ sent (from, to).
Proof.
  unfold sent_by_loops. rewrite list_elem_of_bind. split.
  - intros (from & (to & Hx & Hto)%list_elem_of_bind & Hfrom). eauto.
  - intros (from & to & Hfrom & Hto & Hx). exists from. split; [|assumption].
    apply list_elem_of_bind. eauto.
Qed.

Lemma sent_by_loops_NoDup froms tos :
  NoDup froms -> (forall from, NoDup (tos from)) ->
  NoDup (sent_by_loops sent froms tos).
Proof.
  intros Hfroms Htos. unfold sent_by_loops. apply NoDup_bind; [| |assumption].
  - intros from1 from2 x _ _ (to1 & H1 & _)%list_elem_of_bind
      (to2 & H2 & _)%list_elem_of_bind.
    apply sent_ids in H1, H2. congruence.
  - intros from _. apply NoDup_bind; [| |apply Htos].
    + intros to1 to2 x _ _ H1 H2. apply sent_ids in H1, H2. congruence.
    + intros to _. apply sent_once.
Qed.

End Loops.

(** The order of [map_to_list] is one of the orders a range may take, and
    so is its reverse. *)
Lemma key_order_map_to_list g : key_order g (map_to_list (VertexIds g)).*1.
Proof.
  split; [apply NoDup_fst_map_to_list|].
  intros v. rewrite list_elem_of_fmap. split.
  - intros ([v' i] & -> & Hin%elem_of_map_to_list). simpl. eauto.
  - intros [i Hi]. exists (v, i). split; [reflexivity|].
    apply elem_of_map_to_list. assumption.
Qed.

Lemma key_order_reverse g keys : key_order g keys -> key_order g (reverse keys).
Proof.
  intros [Hnodup Hkeys]. split; [rewrite reverse_Permutation; assumption|].
  intros v. rewrite elem_of_reverse. apply Hkeys.
Qed.

(** The state of a slot and the queries. *)
Lemma slot_state_sym g a b : slot_state g a b = slot_state g b a.
Proof.
  unfold slot_state.
  destruct (VertexIds g !! a) as [i|], (VertexIds g !! b) as [j|]; try reflexivity.
  rewrite (ordered_connId_sym (size g) i j).
  do 2 case_bool_decide; congruence.
Qed.

Lemma slot_state_Some g a b t :
  slot_state g a b = Some t <->
  exists conn, getConnectionId a b false g = (Ok conn, g) /\ index (nodes g) conn = Ok t.
Proof.
  unfold slot_state. rewrite getConnectionId_query.
  destruct (VertexIds g !! a) as [i|], (VertexIds g !! b) as [j|];
    case_bool_decide; split;
    try discriminate; try (intros (conn & [=] & _); fail).
  - destruct (index _ _) as [t'|] eqn:Hread; [|discriminate].
    intros [= ->]. eauto.
  - intros (conn & [= <-] & ->). reflexivity.
Qed.

Lemma CheckArc_true g tail head :
  CheckArc tail head g = (Ok true, g) <-> slot_state g tail head = Some (arcType tail head).
Proof.
  rewrite slot_state_Some. split.
  - unfold CheckArc, deferred, bind, read_node, ret.
    destruct (getConnectionId tail head false g) as [[conn|e] g1] eqn:Hconn; [|discriminate].
    pose proof (getConnectionId_query_store tail head g) as Hstore.
    rewrite Hconn in Hstore. simpl in Hstore. subst g1.
    destruct (index (nodes g) conn) as [t|e] eqn:Hread; [|discriminate].
    intros [= Ht%bool_decide_eq_true_1]. subst t. eauto.
  - intros (conn & Hslot & Hread).
    rewrite (CheckArc_slot _ _ _ _ _ Hslot Hread).
    rewrite bool_decide_eq_true_2 by reflexivity. reflexivity.
Qed.

Lemma CheckEdge_true g a b :
  CheckEdge a b g = (Ok true, g) <-> slot_state g a b = Some CT_UNDIRECTED.
Proof.
  rewrite slot_state_Some. split.
  - unfold CheckEdge, deferred, bind, read_node, ret.
    case_bool_decide; [discriminate|].
    destruct (getConnectionId a b false g) as [[conn|e] g1] eqn:Hconn; [|discriminate].
    pose proof (getConnectionId_query_store a b g) as Hstore.
    rewrite Hconn in Hstore. simpl in Hstore. subst g1.
    destruct (index (nodes g) conn) as [t|e] eqn:Hread; [|discriminate].
    intros [= Ht%bool_decide_eq_true_1]. subst t. eauto.
  - intros (conn & Hslot & Hread).
    rewrite (CheckEdge_slot _ _ _ _ _ Hslot Hread). reflexivity.
Qed.

(** Within capacity a pass of an inner loop finds its slot. *)
Lemma pass_slot g froms tos from to :
  within_capacity g -> key_order g froms -> key_order g (tos from) ->
  from ∈ froms -> to ∈ tos from -> (to <=? from)%N = false ->
  exists conn t,
    getConnectionId from to false g = (Ok conn, g) /\
    index (nodes g) conn = Ok t /\ slot_state g from to = Some t.
Proof.
  intros Hwithin [_ Hfroms] [_ Htos] Hfrom%Hfroms Hto%Htos Hlt%N.leb_gt.
  destruct (slot_readable g from to Hwithin ltac:(lia) Hfrom Hto)
    as (conn & t & Hslot & Hread).
  exists conn, t. split; [assumption|]. split; [assumption|].
  apply slot_state_Some. eauto.
Qed.

(** [VertexesIter] sends the ids in the order it ranges in. *)
Lemma VertexesIter_sends keys g : VertexesIter keys g = (Ok keys, g).
Proof.
  unfold VertexesIter.
  rewrite (for_range_sends keys _ (fun node => [node])) by reflexivity.
  simpl. f_equal. f_equal. induction keys as [|k keys IH]; [reflexivity|].
  rewrite bind_cons, IH. reflexivity.
Qed.

Lemma NoDup_at_most_one {X} (l : list X) : (length l <= 1)%nat -> NoDup l.
Proof.
  destruct l as [|x [|y l]]; simpl; intros Hlen.
  - constructor.
  - apply NoDup_singleton.
  - lia.
Qed.

Lemma ordered_ids_lt from to :
  (to <=? from)%N = false -> ordered_ids (mkConnection from to) = (from, to).
Proof.
  intros Hlt%N.leb_gt. unfold ordered_ids. simpl.
  rewrite N.min_l, N.max_r by lia. reflexivity.
Qed.

Lemma ordered_ids_gt from to :
  (to <=? from)%N = false -> ordered_ids (mkConnection to from) = (from, to).
Proof.
  intros Hlt%N.leb_gt. unfold ordered_ids. simpl.
  rewrite N.min_r, N.max_l by lia. reflexivity.
Qed.

Section ArcsIterFacts.

Variable g : MixedMatrix.

Lemma sent_by_ArcsIter_ids p x : x ∈ sent_by_ArcsIter g p -> p = ordered_ids x.
Proof.
  destruct p as [from to]. unfold sent_by_ArcsIter. simpl.
  destruct (to <=? from)%N eqn:Hle; [intros []%elem_of_nil|].
  destruct (slot_state g from to) as [[]|];
    try (intros []%elem_of_nil; fail); intros ->%list_elem_of_singleton.
  - symmetry. apply ordered_ids_lt. assumption.
  - symmetry. apply ordered_ids_gt. assumption.
Qed.

Lemma sent_by_ArcsIter_once p : NoDup (sent_by_ArcsIter g p).
Proof.
  apply NoDup_at_most_one. unfold sent_by_ArcsIter.
  destruct (_ <=? _)%N; [simpl; lia|].
  destruct (slot_state g p.1 p.2) as [[]|]; simpl; lia.
Qed.

(** What [ArcsIter] sends are the arcs [CheckArc] knows. *)
Lemma sent_by_ArcsIter_CheckArc tail head :
  (exists from to,
     is_Some (VertexIds g !! from) /\ is_Some (VertexIds g !! to) /\
     mkConnection tail head ∈ sent_by_ArcsIter g (from, to)) <->
  CheckArc tail head g = (Ok true, g).
Proof.
  rewrite CheckArc_true. unfold sent_by_ArcsIter, arcType. split.
  - intros (from & to & _ & _ & Hsent). simpl in Hsent.
    destruct (to <=? from)%N eqn:Hle; [apply elem_of_nil in Hsent; contradiction|].
    apply N.leb_gt in Hle.
    destruct (slot_state g from to) as [[]|] eqn:Hstate;
      try (apply elem_of_nil in Hsent; contradiction);
      apply list_elem_of_singleton in Hsent; injection Hsent as -> ->.
    + destruct (N.ltb_spec from to); [assumption | lia].
    + rewrite slot_state_sym, Hstate.
      destruct (N.ltb_spec to from); [lia | reflexivity].
  - intros Hstate.
    assert (is_Some (VertexIds g !! tail) /\ is_Some (VertexIds g !! head) /\ tail <> head)
      as (Htail & Hhead & Hne).
    { unfold slot_state in Hstate.
      destruct (VertexIds g !! tail), (VertexIds g !! head); try discriminate.
      case_bool_decide; [discriminate|]. eauto. }
    destruct (N.ltb_spec tail head) as [Hlt | Hge].
    + exists tail, head. split; [assumption|]. split; [assumption|]. simpl.
      destruct (N.leb_spec head tail); [lia|]. rewrite Hstate. left.
    + exists head, tail. split; [assumption|]. split; [assumption|]. simpl.
      destruct (N.leb_spec tail head); [lia|].
      rewrite slot_state_sym, Hstate. left.
Qed.

Hypothesis Hwithin : within_capacity g.
Variables (froms : list VertexId) (tos : VertexId -> list VertexId).
Hypothesis Hfroms : key_order g froms.
Hypothesis Htos : forall from, key_order g (tos from).

Lemma ArcsIter_sends :
  ArcsIter froms tos g = (Ok (sent_by_loops (sent_by_ArcsIter g) froms tos), g).
Proof.
  unfold ArcsIter. apply loops_send. intros from to ch Hfrom Hto.
  unfold sent_by_ArcsIter. simpl.
  destruct (to <=? from)%N eqn:Hle; [unfold ret; rewrite app_nil_r; reflexivity|].
  destruct (pass_slot g froms tos from to Hwithin Hfroms (Htos from) Hfrom Hto Hle)
    as (conn & t & Hslot & Hread & ->).
  unfold bind, read_node, ret. rewrite Hslot, Hread.
  destruct t; simpl; rewrite ?Hread, ?app_nil_r; reflexivity.
Qed.

End ArcsIterFacts.

(** X14. On a store within its capacity, whatever the orders the two
    loops range in, [ArcsIter] sends and closes (no panic), sends no
    connection twice, and sends [(tail, head)] exactly when
    [CheckArc(tail, head)] is true: every arc once, in its direction. *)
Theorem ArcsIter_arcs (g : MixedMatrix) (froms : list VertexId)
    (tos : VertexId -> list VertexId) :
  within_capacity g -> key_order g froms -> (forall from, key_order g (tos from)) ->
  exists ch,
    ArcsIter froms tos g = (Ok ch, g) /\ NoDup ch /\
    forall tail head,
      mkConnection tail head ∈ ch <-> CheckArc tail head g = (Ok true, g).
Proof.
  intros Hwithin Hfroms Htos. eexists.
  split; [apply ArcsIter_sends; assumption|]. split.
  - apply (sent_by_loops_NoDup _ ordered_ids (sent_by_ArcsIter_ids g)
             (sent_by_ArcsIter_once g)); [apply Hfroms | apply Htos].
  - intros tail head. rewrite sent_by_loops_elem, <- sent_by_ArcsIter_CheckArc.
    split.
    + intros (from & to & Hfrom%Hfroms & Hto%(Htos from) & Hsent). eauto 6.
    + intros (from & to & Hfrom%Hfroms & Hto%(Htos from) & Hsent). eauto 6.
Qed.

Lemma ArcsIter_arcs_witness :
  exists g,
    build 4 [CallAddArc 6 2; CallAddEdge 2 9; CallAddArc 6 9]%N = Some g /\
    within_capacity g /\
    ArcsIter (map_to_list (VertexIds g)).*1
             (fun _ => reverse (map_to_list (VertexIds g)).*1) g
      = (Ok [mkConnection 6 9; mkConnection 6 2]%N, g) /\
    CheckArc 6%N 2%N g = (Ok true, g) /\ CheckArc 6%N 9%N g = (Ok true, g).
Proof.
  eexists. split; [vm_compute; reflexivity|].
  match goal with |- ?A /\ _ => assert (Hwithin : A) end.
  { split; [|split; vm_compute; discriminate].
    apply (build_reachable 4 [CallAddArc 6 2; CallAddEdge 2 9; CallAddArc 6 9]%N).
    vm_compute. reflexivity. }
  split; [exact Hwithin|].
  destruct (ArcsIter_arcs _ _ (fun _ => reverse _) Hwithin (key_order_map_to_list _)
              (fun _ => key_order_reverse _ _ (key_order_map_to_list _)))
    as (ch & Hrun & _ & Hch).
  match goal with |- ?A /\ _ => assert (Hsent : A) by (vm_compute; reflexivity) end.
  split; [exact Hsent|].
  rewrite Hsent in Hrun. injection Hrun as <-.
  split; apply Hch.
  - right. left.
  - left.
Defined.

Section EdgesIterFacts.

Variable g : MixedMatrix.

Lemma sent_by_EdgesIter_ids p x : x ∈ sent_by_EdgesIter g p -> p = ordered_ids x.
Proof.
  destruct p as [from to]. unfold sent_by_EdgesIter. simpl.
  destruct (to <=? from)%N eqn:Hle; [intros []%elem_of_nil|].
  destruct (slot_state g from to) as [[]|];
    try (intros []%elem_of_nil; fail); intros ->%list_elem_of_singleton.
  symmetry. apply ordered_ids_lt. assumption.
Qed.

Lemma sent_by_EdgesIter_once p : NoDup (sent_by_EdgesIter g p).
Proof.
  apply NoDup_at_most_one. unfold sent_by_EdgesIter.
  destruct (_ <=? _)%N; [simpl; lia|].
  destruct (slot_state g p.1 p.2) as [[]|]; simpl; lia.
Qed.

Lemma sent_by_EdgesIter_CheckEdge a b :
  (exists from to,
     is_Some (VertexIds g !! from) /\ is_Some (VertexIds g !! to) /\
     mkConnection a b ∈ sent_by_EdgesIter g (from, to)) <->
  (a < b)%N /\ CheckEdge a b g = (Ok true, g).
Proof.
  rewrite CheckEdge_true. unfold sent_by_EdgesIter. split.
  - intros (from & to & _ & _ & Hsent). simpl in Hsent.
    destruct (to <=? from)%N eqn:Hle; [apply elem_of_nil in Hsent; contradiction|].
    apply N.leb_gt in Hle.
    destruct (slot_state g from to) as [[]|] eqn:Hstate;
      try (apply elem_of_nil in Hsent; contradiction);
      apply list_elem_of_singleton in Hsent; injection Hsent as -> ->.
    split; assumption.
  - intros [Hlt Hstate].
    assert (is_Some (VertexIds g !! a) /\ is_Some (VertexIds g !! b)) as [Ha Hb].
    { unfold slot_state in Hstate.
      destruct (VertexIds g !! a), (VertexIds g !! b); try discriminate. eauto. }
    exists a, b. split; [assumption|]. split; [assumption|]. simpl.
    destruct (N.leb_spec b a); [lia|]. rewrite Hstate. left.
Qed.

Hypothesis Hwithin : within_capacity g.
Variables (froms : list VertexId) (tos : VertexId -> list VertexId).
Hypothesis Hfroms : key_order g froms.
Hypothesis Htos : forall from, key_order g (tos from).

Lemma EdgesIter_sends :
  EdgesIter froms tos g = (Ok (sent_by_loops (sent_by_EdgesIter g) froms tos), g).
Proof.
  unfold EdgesIter. apply loops_send. intros from to ch Hfrom Hto.
  unfold sent_by_EdgesIter. simpl.
  destruct (to <=? from)%N eqn:Hle; [unfold ret; rewrite app_nil_r; reflexivity|].
  destruct (pass_slot g froms tos from to Hwithin Hfroms (Htos from) Hfrom Hto Hle)
    as (conn & t & Hslot & Hread & ->).
  unfold bind, read_node, ret. rewrite Hslot, Hread.
  destruct t; simpl; rewrite ?app_nil_r; reflexivity.
Qed.

End EdgesIterFacts.

(** X15. On a store within its capacity, whatever the orders the two
    loops range in, [EdgesIter] sends and closes (no panic), sends no
    connection twice, and sends [(a, b)] exactly when [a < b] as ids and
    [CheckEdge(a, b)] is true: every edge once, the smaller id as tail. *)
Theorem EdgesIter_edges (g : MixedMatrix) (froms : list VertexId)
    (tos : VertexId -> list VertexId) :
  within_capacity g -> key_order g froms -> (forall from, key_order g (tos from)) ->
  exists ch,
    EdgesIter froms tos g = (Ok ch, g) /\ NoDup ch /\
    forall a b,
      mkConnection a b ∈ ch <-> (a < b)%N /\ CheckEdge a b g = (Ok true, g).
Proof.
  intros Hwithin Hfroms Htos. eexists.
  split; [apply EdgesIter_sends; assumption|]. split.
  - apply (sent_by_loops_NoDup _ ordered_ids (sent_by_EdgesIter_ids g)
             (sent_by_EdgesIter_once g)); [apply Hfroms | apply Htos].
  - intros a b. rewrite sent_by_loops_elem, <- sent_by_EdgesIter_CheckEdge.
    split.
    + intros (from & to & Hfrom%Hfroms & Hto%(Htos from) & Hsent). eauto 6.
    + intros (from & to & Hfrom%Hfroms & Hto%(Htos from) & Hsent). eauto 6.
Qed.

Lemma EdgesIter_edges_witness :
  exists g,
    build 4 [CallAddArc 6 2; CallAddEdge 9 2; CallAddArc 6 9]%N = Some g /\
    within_capacity g /\
    EdgesIter (map_to_list (VertexIds g)).*1
              (fun _ => reverse (map_to_list (VertexIds g)).*1) g
      = (Ok [mkConnection 2 9]%N, g) /\
    (2 < 9)%N /\ CheckEdge 2%N 9%N g = (Ok true, g).
Proof.
  eexists. split; [vm_compute; reflexivity|].
  match goal with |- ?A /\ _ => assert (Hwithin : A) end.
  { split; [|split; vm_compute; discriminate].
    apply (build_reachable 4 [CallAddArc 6 2; CallAddEdge 9 2; CallAddArc 6 9]%N).
    vm_compute. reflexivity. }
  split; [exact Hwithin|].
  destruct (EdgesIter_edges _ _ (fun _ => reverse _) Hwithin (key_order_map_to_list _)
              (fun _ => key_order_reverse _ _ (key_order_map_to_list _)))
    as (ch & Hrun & _ & Hch).
  match goal with |- ?A /\ _ => assert (Hsent : A) by (vm_compute; reflexivity) end.
  split; [exact Hsent|].
  rewrite Hsent in Hrun. injection Hrun as <-.
  apply Hch. left.
Defined.

(** Asked with the smaller id first, [CheckEdgeType] returns the state of
    the slot. *)
Lemma CheckEdgeType_lt g a b t :
  (a < b)%N ->
  CheckEdgeType a b g = (Ok t, g) <-> slot_state g a b = Some t.
Proof.
  intros Hlt. rewrite slot_state_Some.
  assert (Hfalse : (b <? a)%N = false) by (apply N.ltb_ge; lia).
  split.
  - unfold CheckEdgeType, deferred, bind, read_node, ret.
    destruct (getConnectionId a b false g) as [[conn|e] g1] eqn:Hconn; [|discriminate].
    pose proof (getConnectionId_query_store a b g) as Hstore.
    rewrite Hconn in Hstore. simpl in Hstore. subst g1.
    destruct (index (nodes g) conn) as [t'|e] eqn:Hread; [|discriminate].
    rewrite Hfalse, andb_false_r. intros [= ->]. eauto.
  - intros (conn & Hslot & Hread).
    rewrite (CheckEdgeType_slot _ _ _ _ _ Hslot Hread), Hfalse, andb_false_r.
    reflexivity.
Qed.

Section ConnectionsIterFacts.

Variable g : MixedMatrix.

Lemma sent_by_ConnectionsIter_ids p x :
  x ∈ sent_by_ConnectionsIter g p -> p = ordered_ids x.
Proof.
  destruct p as [from to]. unfold sent_by_ConnectionsIter. simpl.
  destruct (to <=? from)%N eqn:Hle; [intros []%elem_of_nil|].
  destruct (slot_state g from to) as [[]|];
    try (intros []%elem_of_nil; fail); intros ->%list_elem_of_singleton;
    symmetry; apply ordered_ids_lt; assumption.
Qed.

Lemma sent_by_ConnectionsIter_once p : NoDup (sent_by_ConnectionsIter g p).
Proof.
  apply NoDup_at_most_one. unfold sent_by_ConnectionsIter.
  destruct (_ <=? _)%N; [simpl; lia|].
  destruct (slot_state g p.1 p.2) as [[]|]; simpl; lia.
Qed.

Lemma sent_by_ConnectionsIter_CheckEdgeType a b :
  (exists from to,
     is_Some (VertexIds g !! from) /\ is_Some (VertexIds g !! to) /\
     mkConnection a b ∈ sent_by_ConnectionsIter g (from, to)) <->
  (a < b)%N /\ exists t, CheckEdgeType a b g = (Ok t, g) /\ t <> CT_NONE.
Proof.
  unfold sent_by_ConnectionsIter. split.
  - intros (from & to & _ & _ & Hsent). simpl in Hsent.
    destruct (to <=? from)%N eqn:Hle; [apply elem_of_nil in Hsent; contradiction|].
    apply N.leb_gt in Hle.
    destruct (slot_state g from to) as [t|] eqn:Hstate;
      [|apply elem_of_nil in Hsent; contradiction].
    assert (t <> CT_NONE /\ mkConnection a b = mkConnection from to) as [Ht [= -> ->]].
    { destruct t; try (apply elem_of_nil in Hsent; contradiction);
        apply list_elem_of_singleton in Hsent; split; congruence. }
    split; [assumption|]. exists t. split; [|assumption].
    apply CheckEdgeType_lt; assumption.
  - intros (Hlt & t & Hstate%CheckEdgeType_lt & Ht); [|assumption].
    assert (is_Some (VertexIds g !! a) /\ is_Some (VertexIds g !! b)) as [Ha Hb].
    { unfold slot_state in Hstate.
      destruct (VertexIds g !! a), (VertexIds g !! b); try discriminate. eauto. }
    exists a, b. split; [assumption|]. split; [assumption|]. simpl.
    destruct (N.leb_spec b a); [lia|]. rewrite Hstate.
    destruct t; try (left; fail). congruence.
Qed.

Hypothesis Hwithin : within_capacity g.
Variables (froms : list VertexId) (tos : VertexId -> list VertexId).
Hypothesis Hfroms : key_order g froms.
Hypothesis Htos : forall from, key_order g (tos from).

Lemma ConnectionsIter_sends :
  ConnectionsIter froms tos g
    = (Ok (sent_by_loops (sent_by_ConnectionsIter g) froms tos), g).
Proof.
  unfold ConnectionsIter. apply loops_send. intros from to ch Hfrom Hto.
  unfold sent_by_ConnectionsIter. simpl.
  destruct (to <=? from)%N eqn:Hle; [unfold ret; rewrite app_nil_r; reflexivity|].
  destruct (pass_slot g froms tos from to Hwithin Hfroms (Htos from) Hfrom Hto Hle)
    as (conn & t & Hslot & Hread & ->).
  unfold bind, read_node, ret. rewrite Hslot, Hread.
  destruct t; simpl; rewrite ?app_nil_r; reflexivity.
Qed.

End ConnectionsIterFacts.

(** X16. On a store within its capacity, whatever the orders the two
    loops range in, [ConnectionsIter] sends and closes (no panic), sends no
    connection twice, and sends [(a, b)] exactly when [a < b] as ids and
    [CheckEdgeType(a, b)] is not [CT_NONE]: every connected pair once, the
    smaller id as tail whatever the direction of an arc. *)
Theorem ConnectionsIter_pairs (g : MixedMatrix) (froms : list VertexId)
    (tos : VertexId -> list VertexId) :
  within_capacity g -> key_order g froms -> (forall from, key_order g (tos from)) ->
  exists ch,
    ConnectionsIter froms tos g = (Ok ch, g) /\ NoDup ch /\
    forall a b,
      mkConnection a b ∈ ch <->
      (a < b)%N /\ exists t, CheckEdgeType a b g = (Ok t, g) /\ t <> CT_NONE.
Proof.
  intros Hwithin Hfroms Htos. eexists.
  split; [apply ConnectionsIter_sends; assumption|]. split.
  - apply (sent_by_loops_NoDup _ ordered_ids (sent_by_ConnectionsIter_ids g)
             (sent_by_ConnectionsIter_once g)); [apply Hfroms | apply Htos].
  - intros a b. rewrite sent_by_loops_elem, <- sent_by_ConnectionsIter_CheckEdgeType.
    split.
    + intros (from & to & Hfrom%Hfroms & Hto%(Htos from) & Hsent). eauto 6.
    + intros (from & to & Hfrom%Hfroms & Hto%(Htos from) & Hsent). eauto 6.
Qed.

Lemma ConnectionsIter_pairs_witness :
  exists g,
    build 4 [CallAddArc 6 2; CallAddEdge 9 2; CallAddArc 6 9]%N = Some g /\
    within_capacity g /\
    ConnectionsIter (map_to_list (VertexIds g)).*1
                    (fun _ => reverse (map_to_list (VertexIds g)).*1) g
      = (Ok [mkConnection 6 9; mkConnection 2 9; mkConnection 2 6]%N, g) /\
    (2 < 6)%N /\
    exists t, CheckEdgeType 2%N 6%N g = (Ok t, g) /\ t <> CT_NONE.
Proof.
  eexists. split; [vm_compute; reflexivity|].
  match goal with |- ?A /\ _ => assert (Hwithin : A) end.
  { split; [|split; vm_compute; discriminate].
    apply (build_reachable 4 [CallAddArc 6 2; CallAddEdge 9 2; CallAddArc 6 9]%N).
    vm_compute. reflexivity. }
  split; [exact Hwithin|].
  destruct (ConnectionsIter_pairs _ _ (fun _ => reverse _) Hwithin (key_order_map_to_list _)
              (fun _ => key_order_reverse _ _ (key_order_map_to_list _)))
    as (ch & Hrun & _ & Hch).
  match goal with |- ?A /\ _ => assert (Hsent : A) by (vm_compute; reflexivity) end.
  split; [exact Hsent|].
  rewrite Hsent in Hrun. injection Hrun as <-.
  apply Hch. right. right. left.
Defined.

Section TypedConnectionsIterFacts.

Variable g : MixedMatrix.

Lemma sent_by_TypedConnectionsIter_ids p x :
  x ∈ sent_by_TypedConnectionsIter g p -> p = ordered_ids (tc_Connection x).
Proof.
  destruct p as [from to]. unfold sent_by_TypedConnectionsIter. simpl.
  destruct (to <=? from)%N eqn:Hle; [intros []%elem_of_nil|].
  destruct (slot_state g from to) as [[]|];
    try (intros []%elem_of_nil; fail); intros ->%list_elem_of_singleton; simpl;
    symmetry; (apply ordered_ids_lt || apply ordered_ids_gt); assumption.
Qed.

Lemma sent_by_TypedConnectionsIter_once p : NoDup (sent_by_TypedConnectionsIter g p).
Proof.
  apply NoDup_at_most_one. unfold sent_by_TypedConnectionsIter.
  destruct (_ <=? _)%N; [simpl; lia|].
  destruct (slot_state g p.1 p.2) as [[]|]; simpl; lia.
Qed.

Lemma sent_by_TypedConnectionsIter_queries a b kind :
  (exists from to,
     is_Some (VertexIds g !! from) /\ is_Some (VertexIds g !! to) /\
     mkTypedConnection (mkConnection a b) kind
       ∈ sent_by_TypedConnectionsIter g (from, to)) <->
  (kind = CT_UNDIRECTED /\ (a < b)%N /\ CheckEdge a b g = (Ok true, g)) \/
  (kind = CT_DIRECTED /\ CheckArc a b g = (Ok true, g)).
Proof.
  rewrite CheckEdge_true, CheckArc_true. unfold sent_by_TypedConnectionsIter, arcType.
  split.
  - intros (from & to & _ & _ & Hsent). simpl in Hsent.
    destruct (to <=? from)%N eqn:Hle; [apply elem_of_nil in Hsent; contradiction|].
    apply N.leb_gt in Hle.
    destruct (slot_state g from to) as [[]|] eqn:Hstate;
      try (apply elem_of_nil in Hsent; contradiction);
      apply list_elem_of_singleton in Hsent; injection Hsent as -> -> ->.
    + left. auto.
    + right. split; [reflexivity|].
      destruct (N.ltb_spec from to); [assumption | lia].
    + right. split; [reflexivity|]. rewrite slot_state_sym, Hstate.
      destruct (N.ltb_spec to from); [lia | reflexivity].
  - assert (Hmapped : forall t, slot_state g a b = Some t ->
              is_Some (VertexIds g !! a) /\ is_Some (VertexIds g !! b) /\ a <> b).
    { intros t Hstate. unfold slot_state in Hstate.
      destruct (VertexIds g !! a), (VertexIds g !! b); try discriminate.
      case_bool_decide; [discriminate|]. eauto. }
    intros [(-> & Hlt & Hstate) | (-> & Hstate)];
      destruct (Hmapped _ Hstate) as (Ha & Hb & Hne).
    + exists a, b. split; [assumption|]. split; [assumption|]. simpl.
      destruct (N.leb_spec b a); [lia|]. rewrite Hstate. left.
    + destruct (N.ltb_spec a b) as [Hlt | Hge].
      * exists a, b. split; [assumption|]. split; [assumption|]. simpl.
        destruct (N.leb_spec b a); [lia|]. rewrite Hstate. left.
      * exists b, a. split; [assumption|]. split; [assumption|]. simpl.
        destruct (N.leb_spec a b); [lia|].
        rewrite slot_state_sym, Hstate. left.
Qed.

Hypothesis Hwithin : within_capacity g.
Variables (froms : list VertexId) (tos : VertexId -> list VertexId).
Hypothesis Hfroms : key_order g froms.
Hypothesis Htos : forall from, key_order g (tos from).

Lemma TypedConnectionsIter_sends :
  TypedConnectionsIter froms tos g
    = (Ok (sent_by_loops (sent_by_TypedConnectionsIter g) froms tos), g).
Proof.
  unfold TypedConnectionsIter. apply loops_send. intros from to ch Hfrom Hto.
  unfold sent_by_TypedConnectionsIter. simpl.
  destruct (to <=? from)%N eqn:Hle; [unfold ret; rewrite app_nil_r; reflexivity|].
  destruct (pass_slot g froms tos from to Hwithin Hfroms (Htos from) Hfrom Hto Hle)
    as (conn & t & Hslot & Hread & ->).
  unfold bind, read_node, ret. rewrite Hslot, Hread.
  destruct t; simpl; rewrite ?app_nil_r; reflexivity.
Qed.

End TypedConnectionsIterFacts.

(** X17. On a store within its capacity, whatever the orders the two
    loops range in, [TypedConnectionsIter] sends and closes (no panic),
    sends nothing twice, and sends [(a, b)] with the kind [CT_UNDIRECTED]
    exactly when [a < b] as ids and [CheckEdge(a, b)] is true, with the kind
    [CT_DIRECTED] exactly when [CheckArc(a, b)] is true, and with no other
    kind: a reversed slot is sent as an arc in its direction. *)
Theorem TypedConnectionsIter_kinds (g : MixedMatrix) (froms : list VertexId)
    (tos : VertexId -> list VertexId) :
  within_capacity g -> key_order g froms -> (forall from, key_order g (tos from)) ->
  exists ch,
    TypedConnectionsIter froms tos g = (Ok ch, g) /\ NoDup ch /\
    forall a b kind,
      mkTypedConnection (mkConnection a b) kind ∈ ch <->
      (kind = CT_UNDIRECTED /\ (a < b)%N /\ CheckEdge a b g = (Ok true, g)) \/
      (kind = CT_DIRECTED /\ CheckArc a b g = (Ok true, g)).
Proof.
  intros Hwithin Hfroms Htos. eexists.
  split; [apply TypedConnectionsIter_sends; assumption|]. split.
  - apply (sent_by_loops_NoDup _ (fun x => ordered_ids (tc_Connection x))
             (sent_by_TypedConnectionsIter_ids g)
             (sent_by_TypedConnectionsIter_once g)); [apply Hfroms | apply Htos].
  - intros a b kind.
    rewrite sent_by_loops_elem, <- sent_by_TypedConnectionsIter_queries.
    split.
    + intros (from & to & Hfrom%Hfroms & Hto%(Htos from) & Hsent). eauto 6.
    + intros (from & to & Hfrom%Hfroms & Hto%(Htos from) & Hsent). eauto 6.
Qed.

Lemma TypedConnectionsIter_kinds_witness :
  exists g,
    build 4 [CallAddArc 6 2; CallAddEdge 9 2; CallAddArc 6 9]%N = Some g /\
    within_capacity g /\
    TypedConnectionsIter (map_to_list (VertexIds g)).*1
                         (fun _ => reverse (map_to_list (VertexIds g)).*1) g
      = (Ok [mkTypedConnection (mkConnection 6 9) CT_DIRECTED;
             mkTypedConnection (mkConnection 2 9) CT_UNDIRECTED;
             mkTypedConnection (mkConnection 6 2) CT_DIRECTED]%N, g) /\
    ((CT_DIRECTED = CT_UNDIRECTED /\ (6 < 2)%N /\ CheckEdge 6%N 2%N g = (Ok true, g)) \/
     (CT_DIRECTED = CT_DIRECTED /\ CheckArc 6%N 2%N g = (Ok true, g))).
Proof.
  eexists. split; [vm_compute; reflexivity|].
  match goal with |- ?A /\ _ => assert (Hwithin : A) end.
  { split; [|split; vm_compute; discriminate].
    apply (build_reachable 4 [CallAddArc 6 2; CallAddEdge 9 2; CallAddArc 6 9]%N).
    vm_compute. reflexivity. }
  split; [exact Hwithin|].
  destruct (TypedConnectionsIter_kinds _ _ (fun _ => reverse _) Hwithin
              (key_order_map_to_list _)
              (fun _ => key_order_reverse _ _ (key_order_map_to_list _)))
    as (ch & Hrun & _ & Hch).
  match goal with |- ?A /\ _ => assert (Hsent : A) by (vm_compute; reflexivity) end.
  split; [exact Hsent|].
  rewrite Hsent in Hrun. injection Hrun as <-.
  apply Hch. right. right. left.
Defined.

(* ------------------------------------------------------------------------- *)
(** ** The arcs filter: membership, successors, predecessors *)

Lemma Connection_eta (c : Connection) : c = mkConnection (Tail c) (Head c).
Proof. destruct c. reflexivity. Qed.

Lemma CheckArc_loop_true arcs node1 node2 :
  ArcsFilter.CheckArc_loop arcs node1 node2 true = true <->
  mkConnection node1 node2 ∉ arcs.
Proof.
  induction arcs as [|fc arcs IH]; simpl.
  - split; [intros _; apply not_elem_of_nil | reflexivity].
  - rewrite not_elem_of_cons, <- IH.
    destruct (N.eqb_spec (Tail fc) node1) as [Ht|Ht],
             (N.eqb_spec (Head fc) node2) as [Hh|Hh]; simpl.
    + split; [discriminate|]. intros [Hne _]. exfalso. apply Hne.
      rewrite (Connection_eta fc), Ht, Hh. reflexivity.
    + split; [|tauto]. intros Hloop. split; [|assumption].
      intros Heq. apply Hh. rewrite <- Heq. reflexivity.
    + split; [|tauto]. intros Hloop. split; [|assumption].
      intros Heq. apply Ht. rewrite <- Heq. reflexivity.
    + split; [|tauto]. intros Hloop. split; [|assumption].
      intros Heq. apply Ht. rewrite <- Heq. reflexivity.
Qed.

(** X18. The filter's [CheckArc(node1, node2)] is true exactly when the
    wrapped reader's [CheckArc] is true and [(node1, node2)] is none of the
    filtering arcs. *)
Theorem filter_CheckArc (filter : DirectedGraphArcsFilter) (node1 node2 : VertexId) :
  ArcsFilter.CheckArc filter node1 node2 = true <->
  reader_CheckArc (filter_reader filter) node1 node2 = true /\
  mkConnection node1 node2 ∉ arcs filter.
Proof.
  unfold ArcsFilter.CheckArc.
  destruct (reader_CheckArc (filter_reader filter) node1 node2) eqn:Hreader.
  - rewrite CheckArc_loop_true. tauto.
  - split; [discriminate | intros [[=] _]].
Qed.

Lemma drop_first_Some x entries rest :
  drop_first x entries = Some rest ->
  exists l1 l2, entries = l1 ++ (x :: l2) /\ (x ∉ l1) /\ rest = l1 ++ l2.
Proof.
  revert rest. induction entries as [|a entries IH]; intros rest; simpl; [discriminate|].
  destruct (N.eqb_spec a x) as [->|Hne].
  - intros [= <-]. exists [], entries. split; [reflexivity|].
    split; [apply not_elem_of_nil | reflexivity].
  - destruct (drop_first x entries) as [rest'|]; [|discriminate].
    intros [= <-]. destruct (IH rest' eq_refl) as (l1 & l2 & -> & Hl1 & ->).
    exists (a :: l1), l2. split; [reflexivity|]. split; [|reflexivity].
    rewrite not_elem_of_cons. split; [congruence | assumption].
Qed.

Lemma drop_first_None x entries : drop_first x entries = None <-> x ∉ entries.
Proof.
  induction entries as [|a entries IH]; simpl.
  - split; [intros _; apply not_elem_of_nil | reflexivity].
  - rewrite not_elem_of_cons. destruct (N.eqb_spec a x) as [->|Hne].
    + split; [discriminate | intros [Hne _]; congruence].
    + destruct (drop_first x entries).
      * split; [discriminate|]. intros [_ Hnot]. apply IH in Hnot. discriminate.
      * split; [|reflexivity]. intros _. split; [congruence | apply IH; reflexivity].
Qed.

(** One removal on a slice without duplicates: [x] leaves the live
    entries, the others stay, and the slice keeps its length. *)
Lemma remove_node_live x s :
  NoDup (live s) ->
  NoDup (live (remove_node x s)) /\
  (forall y, y ∈ live (remove_node x s) <-> y ∈ live s /\ y <> x) /\
  length (backing (remove_node x s)) = length (backing s).
Proof.
  intros Hnodup. unfold remove_node.
  destruct (drop_first x (live s)) as [rest|] eqn:Hdrop.
  - destruct (drop_first_Some _ _ _ Hdrop) as (l1 & l2 & Hlive & Hl1 & ->).
    rewrite Hlive in Hnodup |- *.
    assert (Hlast : is_Some (last (l1 ++ x :: l2))).
    { rewrite last_is_Some. destruct l1; discriminate. }
    destruct Hlast as [z ->]. simpl.
    apply NoDup_app in Hnodup. destruct Hnodup as (Hnd1 & Hdisj & Hnd2).
    apply NoDup_cons in Hnd2. destruct Hnd2 as [Hx2 Hnd2].
    split; [|split].
    + apply NoDup_app. split; [assumption|]. split; [|assumption].
      intros y Hy Hy2. apply (Hdisj y Hy). right. assumption.
    + intros y. rewrite !elem_of_app, elem_of_cons. split.
      * intros [Hy | Hy]; (split; [tauto|]); intros ->; contradiction.
      * intros [[Hy | [-> | Hy]] Hne]; tauto.
    + unfold backing. simpl. rewrite Hlive. repeat (rewrite ?length_app; simpl). lia.
  - split; [assumption|]. split; [|reflexivity].
    apply drop_first_None in Hdrop.
    intros y. split; [|tauto]. intros Hy. split; [assumption|]. intros ->. contradiction.
Qed.

(** The loop over the filtering arcs, for both methods: [sel] is the end
    of a filtering arc compared with [node], [rem] the end removed. *)
Section FilterLoop.

Variables (sel rem : Connection -> VertexId) (node : VertexId).

Let step (s : Nodes) (filteringConnection : Connection) : Nodes :=
  if (node =? sel filteringConnection)%N
  then remove_node (rem filteringConnection) s else s.

Lemma filter_loop_live arcs s :
  NoDup (live s) ->
  NoDup (live (fold_left step arcs s)) /\
  (forall y, y ∈ live (fold_left step arcs s) <->
     y ∈ live s /\ forall fc, fc ∈ arcs -> node = sel fc -> rem fc <> y) /\
  length (backing (fold_left step arcs s)) = length (backing s).
Proof.
  revert s. induction arcs as [|fc arcs IH]; intros s Hnodup; simpl.
  - split; [assumption|]. split; [|reflexivity].
    intros y. split; [|tauto]. intros Hy. split; [assumption|].
    intros fc Hfc. apply elem_of_nil in Hfc. contradiction.
  - assert (Hstep : NoDup (live (step s fc)) /\
              (forall y, y ∈ live (step s fc) <->
                 y ∈ live s /\ (node = sel fc -> rem fc <> y)) /\
              length (backing (step s fc)) = length (backing s)).
    { unfold step. destruct (N.eqb_spec node (sel fc)) as [Heq|Hne].
      - destruct (remove_node_live (rem fc) s Hnodup) as (Hnd & Hmem & Hlen).
        split; [assumption|]. split; [|assumption].
        intros y. rewrite Hmem. split; intros [Hy Hne]; (split; [assumption|]).
        + intros _ Hrem. apply Hne. symmetry. assumption.
        + intros ->. apply (Hne Heq). reflexivity.
      - split; [assumption|]. split; [|reflexivity].
        intros y. split; [|tauto]. intros Hy. split; [assumption|]. tauto. }
    destruct Hstep as (Hnd & Hmem & Hlen).
    destruct (IH _ Hnd) as (Hnd' & Hmem' & Hlen').
    split; [assumption|]. split; [|congruence].
    intros y. rewrite Hmem', Hmem. split.
    + intros [[Hy Hfc] Hrest]. split; [assumption|].
      intros fc' [-> | Hin]%elem_of_cons; auto.
    + intros [Hy Hall]. split; [split; [assumption|]|].
      * apply Hall. left.
      * intros fc' Hin. apply Hall. right. assumption.
Qed.

End FilterLoop.

(** X19. When the wrapped reader's [GetAccessors(node)] has no duplicates,
    the filter's [GetAccessors(node)] has none either and holds exactly the
    reader's accessors [y] for which [(node, y)] is none of the filtering
    arcs. *)
Theorem GetAccessors_filters (filter : DirectedGraphArcsFilter) (reader : NodesReader)
    (node : VertexId) :
  NoDup (reader_GetAccessors reader node) ->
  NoDup (GetAccessors filter reader node) /\
  forall y, y ∈ GetAccessors filter reader node <->
    y ∈ reader_GetAccessors reader node /\ mkConnection node y ∉ arcs filter.
Proof.
  intros Hnodup.
  destruct (filter_loop_live Tail Head node (arcs filter)
              (mkNodes (reader_GetAccessors reader node) []) Hnodup)
    as (Hnd & Hmem & _).
  split; [exact Hnd|]. intros y.
  unfold GetAccessors, GetAccessors_loop. rewrite Hmem. simpl.
  split; intros [Hy Hnot]; (split; [assumption|]).
  - intros Hin. apply (Hnot _ Hin); reflexivity.
  - intros fc Hin -> <-. apply Hnot. rewrite <- Connection_eta. assumption.
Qed.

Lemma GetAccessors_filters_witness :
  NoDup [2; 5; 7]%N /\
  GetAccessors (NewArcsFilter two_arcs_reader [mkConnection 1 5; mkConnection 3 2]%N)
    (mkNodesReader (fun _ => [2; 5; 7]%N) (fun _ => [])) 1%N = [2; 7]%N /\
  (5%N ∈ [2; 7]%N <-> 5%N ∈ [2; 5; 7]%N /\
     (mkConnection 1 5 ∉ [mkConnection 1 5; mkConnection 3 2])%N).
Proof.
  assert (Hnodup : NoDup [2; 5; 7]%N) by (apply NoDup_ListNoDup; repeat constructor;
    simpl; intros H; repeat destruct H as [H|H]; try discriminate; assumption).
  split; [exact Hnodup|]. split; [reflexivity|].
  exact (proj2 (GetAccessors_filters
                  (NewArcsFilter two_arcs_reader [mkConnection 1 5; mkConnection 3 2]%N)
                  (mkNodesReader (fun _ => [2; 5; 7]%N) (fun _ => [])) 1%N Hnodup) 5%N).
Defined.

(** X20. The filter's [GetPredecessors(node)] is computed from the wrapped
    reader's [GetAccessors(node)], its successors: when that slice has no
    duplicates, the result holds exactly the reader's accessors [y] of
    [node] for which [(y, node)] is none of the filtering arcs; the reader's
    [GetPredecessors] plays no part. *)
Theorem GetPredecessors_from_accessors (filter : DirectedGraphArcsFilter)
    (reader : NodesReader) (node : VertexId) :
  NoDup (reader_GetAccessors reader node) ->
  NoDup (GetPredecessors filter reader node) /\
  forall y, y ∈ GetPredecessors filter reader node <->
    y ∈ reader_GetAccessors reader node /\ mkConnection y node ∉ arcs filter.
Proof.
  intros Hnodup.
  destruct (filter_loop_live Head Tail node (arcs filter)
              (mkNodes (reader_GetAccessors reader node) []) Hnodup)
    as (Hnd & Hmem & _).
  split; [exact Hnd|]. intros y.
  unfold GetPredecessors, GetPredecessors_loop. rewrite Hmem. simpl.
  split; intros [Hy Hnot]; (split; [assumption|]).
  - intros Hin. apply (Hnot _ Hin); reflexivity.
  - intros fc Hin -> <-. apply Hnot. rewrite <- Connection_eta. assumption.
Qed.

Lemma GetPredecessors_from_accessors_witness :
  NoDup [2; 5]%N /\
  GetPredecessors (NewArcsFilter two_arcs_reader [mkConnection 5 1]%N)
    (mkNodesReader (fun _ => [2; 5]%N) (fun _ => [8; 9]%N)) 1%N = [2]%N /\
  (2%N ∈ [2]%N <-> 2%N ∈ [2; 5]%N /\ (mkConnection 2 1 ∉ [mkConnection 5 1])%N).
Proof.
  assert (Hnodup : NoDup [2; 5]%N) by (apply NoDup_ListNoDup; repeat constructor;
    simpl; intros H; repeat destruct H as [H|H]; try discriminate; assumption).
  split; [exact Hnodup|]. split; [reflexivity|].
  exact (proj2 (GetPredecessors_from_accessors
                  (NewArcsFilter two_arcs_reader [mkConnection 5 1]%N)
                  (mkNodesReader (fun _ => [2; 5]%N) (fun _ => [8; 9]%N)) 1%N Hnodup) 2%N).
Defined.

Lemma drop_first_app x l1 rest :
  x ∉ l1 -> drop_first x (l1 ++ x :: rest) = Some (l1 ++ rest).
Proof.
  induction l1 as [|a l1 IH]; simpl; intros Hnot.
  - rewrite N.eqb_refl. reflexivity.
  - apply not_elem_of_cons in Hnot. destruct Hnot as [Hne Hnot].
    destruct (N.eqb_spec a x); [congruence|]. rewrite (IH Hnot). reflexivity.
Qed.

(** X21. The filter works in the slice the wrapped reader returned. With
    the single filtering arc [(tail, head)], when the reader's
    [GetAccessors(tail)] reads [l1 ++ head :: l2 ++ [z]] with [head] not in
    [l1], the filter returns [l1 ++ l2 ++ [z]], and the reader's slice reads
    [l1 ++ l2 ++ [z; z]] after the call. *)
Theorem GetAccessors_overwrites (g : DirectedGraphReader) (reader : NodesReader)
    (tail head z : VertexId) (l1 l2 : list VertexId) :
  reader_GetAccessors reader tail = l1 ++ head :: l2 ++ [z] ->
  head ∉ l1 ->
  GetAccessors (NewArcFilter g tail head) reader tail = l1 ++ l2 ++ [z] /\
  backing (GetAccessors_loop (NewArcFilter g tail head) reader tail)
    = l1 ++ l2 ++ [z; z].
Proof.
  intros Hslice Hnot.
  unfold GetAccessors, GetAccessors_loop, NewArcFilter, backing. simpl.
  rewrite N.eqb_refl, Hslice. unfold remove_node. simpl.
  rewrite (drop_first_app _ _ _ Hnot).
  replace (l1 ++ head :: l2 ++ [z]) with ((l1 ++ head :: l2) ++ [z])
    by (rewrite <- app_assoc; reflexivity).
  rewrite last_snoc. simpl. split; [reflexivity|].
  rewrite <- !app_assoc. reflexivity.
Qed.

Lemma GetAccessors_overwrites_witness :
  GetAccessors (NewArcFilter two_arcs_reader 1 5)%N
    (mkNodesReader (fun _ => [2; 5; 7; 9]%N) (fun _ => [])) 1%N = [2; 7; 9]%N /\
  backing (GetAccessors_loop (NewArcFilter two_arcs_reader 1 5)%N
             (mkNodesReader (fun _ => [2; 5; 7; 9]%N) (fun _ => [])) 1%N)
    = [2; 7; 9; 9]%N.
Proof.
  apply (GetAccessors_overwrites two_arcs_reader
           (mkNodesReader (fun _ => [2; 5; 7; 9]%N) (fun _ => []))
           1%N 5%N 9%N [2%N] [7%N]).
  - reflexivity.
  - intros [Heq | Hin]%elem_of_cons; [discriminate | apply elem_of_nil in Hin; exact Hin].
Defined.

(* ------------------------------------------------------------------------- *)
(** ** Removal of what is there, and of what is not *)

Lemma slot_state_updated g a b conn t edges arcs t0 :
  getConnectionId a b false g = (Ok conn, g) -> index (nodes g) conn = Ok t0 ->
  getConnectionId a b false (updated g conn t edges arcs)
    = (Ok conn, updated g conn t edges arcs) /\
  getConnectionId b a false (updated g conn t edges arcs)
    = (Ok conn, updated g conn t edges arcs) /\
  index (nodes (updated g conn t edges arcs)) conn = Ok t.
Proof.
  intros Hslot Hread.
  destruct (getConnectionId_any _ _ _ _ Hslot) as [_ Hany].
  split; [apply getConnectionId_query_updated; assumption|].
  split; [apply getConnectionId_query_updated; apply Hany|].
  simpl. eapply index_store_eq. eassumption.
Qed.

(** X22. [RemoveEdge] removes an edge that is there: when
    [CheckEdge(u, v)] is true, [RemoveEdge(u, v)] returns; after it
    [CheckEdge] is false and [CheckEdgeType] is [CT_NONE] for [(u, v)] and for
    [(v, u)], and the vertices are the same as before. *)
Theorem RemoveEdge_removes (u v : VertexId) (g : MixedMatrix) :
  CheckEdge u v g = (Ok true, g) ->
  exists g',
    RemoveEdge u v g = (Ok tt, g') /\
    VertexIds g' = VertexIds g /\
    CheckEdge u v g' = (Ok false, g') /\ CheckEdge v u g' = (Ok false, g') /\
    CheckEdgeType u v g' = (Ok CT_NONE, g') /\ CheckEdgeType v u g' = (Ok CT_NONE, g').
Proof.
  intros (conn & Hslot & Hread)%CheckEdge_true%slot_state_Some.
  rewrite (RemoveEdge_slot _ _ _ _ _ Hslot Hread).
  rewrite bool_decide_eq_false_2 by (intros Hne; apply Hne; reflexivity).
  eexists. split; [reflexivity|]. split; [reflexivity|].
  destruct (slot_state_updated g u v conn CT_NONE (GoInt.sub (edgesCnt g) 1) (arcsCnt g)
              _ Hslot Hread) as (Hfwd & Hbwd & Hnow).
  rewrite (CheckEdge_slot _ _ _ _ _ Hfwd Hnow), (CheckEdge_slot _ _ _ _ _ Hbwd Hnow).
  rewrite (CheckEdgeType_slot _ _ _ _ _ Hfwd Hnow), (CheckEdgeType_slot _ _ _ _ _ Hbwd Hnow).
  repeat split; reflexivity.
Qed.

Lemma RemoveEdge_removes_witness :
  exists g g',
    build 4 [CallAddEdge 6 2]%N = Some g /\
    CheckEdge 2%N 6%N g = (Ok true, g) /\
    RemoveEdge 2%N 6%N g = (Ok tt, g') /\
    CheckEdge 2%N 6%N g' = (Ok false, g') /\
    CheckEdgeType 6%N 2%N g' = (Ok CT_NONE, g') /\
    Order g' = 2.
Proof.
  eexists. eexists. split; [vm_compute; reflexivity|].
  match goal with |- ?A /\ _ => assert (Hedge : A) by (vm_compute; reflexivity) end.
  split; [exact Hedge|].
  destruct (RemoveEdge_removes _ _ _ Hedge) as (g' & Hrun & _ & Hfwd & _ & _ & Htype).
  match goal with |- ?A /\ _ => assert (Hrem : A) by (vm_compute; reflexivity) end.
  split; [exact Hrem|].
  rewrite Hrem in Hrun. injection Hrun as <-.
  split; [exact Hfwd|]. split; [exact Htype|]. reflexivity.
Defined.

(** X23. [RemoveArc] removes an arc that is there: when
    [CheckArc(tail, head)] is true, [RemoveArc(tail, head)] returns; after it
    [CheckArc] is false and [CheckEdgeType] is [CT_NONE] for the pair in both
    orders, and the vertices are the same as before. *)
Theorem RemoveArc_removes (tail head : VertexId) (g : MixedMatrix) :
  CheckArc tail head g = (Ok true, g) ->
  exists g',
    RemoveArc tail head g = (Ok tt, g') /\
    VertexIds g' = VertexIds g /\
    CheckArc tail head g' = (Ok false, g') /\ CheckArc head tail g' = (Ok false, g') /\
    CheckEdgeType tail head g' = (Ok CT_NONE, g') /\
    CheckEdgeType head tail g' = (Ok CT_NONE, g').
Proof.
  intros (conn & Hslot & Hread)%CheckArc_true%slot_state_Some.
  rewrite (RemoveArc_slot _ _ _ _ _ Hslot Hread).
  rewrite bool_decide_eq_false_2 by (intros Hne; apply Hne; reflexivity).
  eexists. split; [reflexivity|]. split; [reflexivity|].
  destruct (slot_state_updated g tail head conn CT_NONE (edgesCnt g)
              (GoInt.sub (arcsCnt g) 1) _ Hslot Hread) as (Hfwd & Hbwd & Hnow).
  rewrite (CheckArc_slot _ _ _ _ _ Hfwd Hnow), (CheckArc_slot _ _ _ _ _ Hbwd Hnow).
  rewrite (CheckEdgeType_slot _ _ _ _ _ Hfwd Hnow), (CheckEdgeType_slot _ _ _ _ _ Hbwd Hnow).
  rewrite !bool_decide_eq_false_2
    by (intros Heq; symmetry in Heq; revert Heq; apply arcType_not_edge).
  repeat split; reflexivity.
Qed.

Lemma RemoveArc_removes_witness :
  exists g g',
    build 4 [CallAddArc 6 2]%N = Some g /\
    CheckArc 6%N 2%N g = (Ok true, g) /\
    RemoveArc 6%N 2%N g = (Ok tt, g') /\
    CheckArc 6%N 2%N g' = (Ok false, g') /\
    CheckEdgeType 2%N 6%N g' = (Ok CT_NONE, g') /\
    Order g' = 2.
Proof.
  eexists. eexists. split; [vm_compute; reflexivity|].
  match goal with |- ?A /\ _ => assert (Harc : A) by (vm_compute; reflexivity) end.
  split; [exact Harc|].
  destruct (RemoveArc_removes _ _ _ Harc) as (g' & Hrun & _ & Hfwd & _ & _ & Htype).
  match goal with |- ?A /\ _ => assert (Hrem : A) by (vm_compute; reflexivity) end.
  split; [exact Hrem|].
  rewrite Hrem in Hrun. injection Hrun as <-.
  split; [exact Hfwd|]. split; [exact Htype|]. reflexivity.
Defined.

Lemma query_false_slot (u v : VertexId) g :
  (u <> v /\ CheckEdge u v g = (Ok false, g) ->
   exists conn t, getConnectionId u v false g = (Ok conn, g) /\
                  index (nodes g) conn = Ok t /\ t <> CT_UNDIRECTED) /\
  (CheckArc u v g = (Ok false, g) ->
   exists conn t, getConnectionId u v false g = (Ok conn, g) /\
                  index (nodes g) conn = Ok t /\ t <> arcType u v).
Proof.
  pose proof (getConnectionId_query_store u v g) as Hstore.
  split.
  - intros [Hne Hrun]. revert Hrun.
    unfold CheckEdge, deferred, bind, read_node, ret.
    rewrite bool_decide_eq_false_2 by assumption.
    destruct (getConnectionId u v false g) as [[conn|e] g1]; [|discriminate].
    simpl in Hstore. subst g1.
    destruct (index (nodes g) conn) as [t|e] eqn:Hread; [|discriminate].
    intros [= Ht%bool_decide_eq_false_1]. eauto.
  - unfold CheckArc, deferred, bind, read_node, ret.
    destruct (getConnectionId u v false g) as [[conn|e] g1]; [|discriminate].
    simpl in Hstore. subst g1.
    destruct (index (nodes g) conn) as [t|e] eqn:Hread; [|discriminate].
    intros [= Ht%bool_decide_eq_false_1]. eauto.
Qed.

(** X24. [RemoveEdge] of an edge that is not there, between two distinct
    ids for which [CheckEdge] returns false, panics with "Edge doesn't
    exists." and leaves the store as it is. *)
Theorem RemoveEdge_absent (u v : VertexId) (g : MixedMatrix) :
  u <> v -> CheckEdge u v g = (Ok false, g) ->
  RemoveEdge u v g
    = (Panic (NewSequent "Remove edge from mixed graph."
                (NewError "Edge doesn't exists.")), g).
Proof.
  intros Hne Hquery.
  destruct (proj1 (query_false_slot u v g) (conj Hne Hquery))
    as (conn & t & Hslot & Hread & Ht).
  rewrite (RemoveEdge_slot _ _ _ _ _ Hslot Hread).
  rewrite bool_decide_eq_true_2 by assumption. reflexivity.
Qed.

Lemma RemoveEdge_absent_witness :
  exists g,
    build 4 [CallAddArc 6 2]%N = Some g /\
    6%N <> 2%N /\ CheckEdge 6%N 2%N g = (Ok false, g) /\
    RemoveEdge 6%N 2%N g
      = (Panic (NewSequent "Remove edge from mixed graph."
                  (NewError "Edge doesn't exists.")), g).
Proof.
  eexists. split; [vm_compute; reflexivity|].
  assert (Hne : 6%N <> 2%N) by discriminate. split; [exact Hne|].
  match goal with |- ?A /\ _ => assert (Hquery : A) by (vm_compute; reflexivity) end.
  split; [exact Hquery|]. exact (RemoveEdge_absent _ _ _ Hne Hquery).
Defined.

(** X25. [RemoveArc(tail, head)] of an arc that is not there, for which
    [CheckArc(tail, head)] returns false, panics with "Arc doesn't exists."
    and leaves the store as it is. *)
Theorem RemoveArc_absent (tail head : VertexId) (g : MixedMatrix) :
  CheckArc tail head g = (Ok false, g) ->
  RemoveArc tail head g
    = (Panic (NewSequent "Remove arc from mixed graph."
                (NewError "Arc doesn't exists.")), g).
Proof.
  intros Hquery.
  destruct (proj2 (query_false_slot tail head g) Hquery)
    as (conn & t & Hslot & Hread & Ht).
  rewrite (RemoveArc_slot _ _ _ _ _ Hslot Hread).
  rewrite bool_decide_eq_true_2 by assumption. reflexivity.
Qed.

Lemma RemoveArc_absent_witness :
  exists g,
    build 4 [CallAddArc 6 2]%N = Some g /\
    CheckArc 2%N 6%N g = (Ok false, g) /\
    RemoveArc 2%N 6%N g
      = (Panic (NewSequent "Remove arc from mixed graph."
                  (NewError "Arc doesn't exists.")), g).
Proof.
  eexists. split; [vm_compute; reflexivity|].
  match goal with |- ?A /\ _ => assert (Hquery : A) by (vm_compute; reflexivity) end.
  split; [exact Hquery|]. exact (RemoveArc_absent _ _ _ Hquery).
Defined.

(** X26. A full store takes no new vertex through a connection: for two
    distinct ids of which one at least is unmapped, when
    [size - len(VertexIds) < 1], each of [AddEdge], [AddArc], [RemoveEdge] and
    [RemoveArc] panics with "Not enough space to create new node." and leaves
    the store as it is. *)
Theorem full_store_refuses_new_vertex (u v : VertexId) (g : MixedMatrix) :
  u <> v ->
  VertexIds g !! u = None \/ VertexIds g !! v = None ->
  GoInt.sub (size g) (Order g) < 1 ->
  AddEdge u v g = (Panic (NewSequent "Add edge to mixed graph." no_space), g) /\
  AddArc u v g = (Panic (NewSequent "Add arc to mixed graph." no_space), g) /\
  RemoveEdge u v g = (Panic (NewSequent "Remove edge from mixed graph." no_space), g) /\
  RemoveArc u v g = (Panic (NewSequent "Remove arc from mixed graph." no_space), g).
Proof.
  intros Hne Hun Hfull.
  unfold AddEdge, AddArc, RemoveEdge, RemoveArc, deferred, bind, no_space.
  rewrite (getConnectionId_full _ _ _ Hne Hun Hfull).
  repeat split; reflexivity.
Qed.

Lemma full_store_refuses_new_vertex_witness :
  exists g,
    build 2 [CallAddEdge 6 2]%N = Some g /\
    2%N <> 9%N /\ VertexIds g !! 9%N = None /\ GoInt.sub (size g) (Order g) < 1 /\
    AddEdge 2%N 9%N g = (Panic (NewSequent "Add edge to mixed graph." no_space), g) /\
    AddArc 2%N 9%N g = (Panic (NewSequent "Add arc to mixed graph." no_space), g) /\
    RemoveEdge 2%N 9%N g
      = (Panic (NewSequent "Remove edge from mixed graph." no_space), g) /\
    RemoveArc 2%N 9%N g
      = (Panic (NewSequent "Remove arc from mixed graph." no_space), g).
Proof.
  eexists. split; [vm_compute; reflexivity|].
  assert (Hne : 2%N <> 9%N) by discriminate. split; [exact Hne|].
  match goal with |- ?A /\ _ => assert (Hun : A) by reflexivity end.
  split; [exact Hun|].
  match goal with |- ?A /\ _ => assert (Hfull : A) by (vm_compute; reflexivity) end.
  split; [exact Hfull|].
  exact (full_store_refuses_new_vertex _ _ _ Hne (or_intror Hun) Hfull).
Defined.

(** X27. What [CheckEdgeType] says of an arc just added by a successful
    [AddArc(tail, head)]: asked as [(head, tail)] it returns
    [CT_DIRECTED_REVERSED]; asked as [(tail, head)] it returns [CT_DIRECTED]
    when [tail < head] as ids, and [CT_DIRECTED_REVERSED] when
    [head < tail]. *)
Theorem CheckEdgeType_of_arc (tail head : VertexId) (g g' : MixedMatrix) :
  AddArc tail head g = (Ok tt, g') ->
  CheckEdgeType head tail g' = (Ok CT_DIRECTED_REVERSED, g') /\
  ((tail < head)%N -> CheckEdgeType tail head g' = (Ok CT_DIRECTED, g')) /\
  ((head < tail)%N -> CheckEdgeType tail head g' = (Ok CT_DIRECTED_REVERSED, g')).
Proof.
  intros (conn & g1 & _ & _ & _ & Hfwd & Hbwd & Hread)%AddArc_ok.
  rewrite (CheckEdgeType_slot _ _ _ _ _ Hfwd Hread), (CheckEdgeType_slot _ _ _ _ _ Hbwd Hread).
  unfold arcType. split; [|split].
  - destruct (N.ltb_spec tail head); reflexivity.
  - intros Hlt. destruct (N.ltb_spec tail head), (N.ltb_spec head tail);
      try reflexivity; lia.
  - intros Hlt. destruct (N.ltb_spec tail head), (N.ltb_spec head tail);
      try reflexivity; lia.
Qed.

Lemma CheckEdgeType_of_arc_witness :
  exists g g',
    build 4 [CallAddNode 2; CallAddNode 6]%N = Some g /\
    AddArc 6%N 2%N g = (Ok tt, g') /\ (2 < 6)%N /\
    CheckEdgeType 2%N 6%N g' = (Ok CT_DIRECTED_REVERSED, g') /\
    CheckEdgeType 6%N 2%N g' = (Ok CT_DIRECTED_REVERSED, g').
Proof.
  eexists. eexists. split; [vm_compute; reflexivity|].
  match goal with |- ?A /\ _ => assert (Hadd : A) by (vm_compute; reflexivity) end.
  split; [exact Hadd|].
  assert (Hlt : (2 < 6)%N) by reflexivity. split; [exact Hlt|].
  destruct (CheckEdgeType_of_arc _ _ _ _ Hadd) as (Hbwd & _ & Hfwd).
  split; [exact Hbwd | exact (Hfwd Hlt)].
Defined.
